(** * error-logging-service: the dispatch pipeline, shallowly embedded

    The development follows the TypeScript sources file by file:

    - [core/LogLevel.ts]   the severity scale and its label table;
    - [core/LogEntry.ts]   the immutable record and its factory;
    - [plugins/Plugin.ts]  the stage contract;
    - [transports/Transport.ts], [transports/ConsoleTransport.ts]
                           the backend contract and the console backend;
    - [core/Logger.ts]     the singleton guard, the stage chain and the
                           fan-out.

    JavaScript effects are made explicit.  Code supplied by the user (stages,
    backends, formatters, id generators) acts on a state [World] that the
    library never inspects and may write to the console; the library itself
    threads a system state [Sys] that additionally holds the static
    [Logger.instance] slot, the console output, and an observation trace.

    Asynchrony is modelled by running one call to quiescence: a promise is
    represented by its fate (fulfilled, rejected, or never settled) and
    [await p] continues with the fate of [p].  The interleaving of several
    concurrent calls is therefore not represented; stages and backends are
    assumed not to call back into the logger. *)

From Stdlib Require Import Ascii String List ZArith Bool Lia Permutation.
Import ListNotations.
Local Open Scope string_scope.

(** ** JavaScript values used by the library *)

Inductive JsValue : Type :=
| JsString (s : string)
| JsNumber (z : Z)
| JsBoolean (b : bool)
| JsNull.

(** [Record<string, unknown>]: the free-form context object. *)
Definition JsRecord : Type := list (string * JsValue).

(** ** core/LogLevel.ts *)

Inductive LogLevel : Type := DEBUG | INFO | WARN | ERROR | FATAL.

(** The numeric values of the enum; [<] on levels is [<] on these. *)
Definition level_value (l : LogLevel) : Z :=
  match l with
  | DEBUG => 0
  | INFO => 1
  | WARN => 2
  | ERROR => 3
  | FATAL => 4
  end.

Definition LOG_LEVEL_LABELS (l : LogLevel) : string :=
  match l with
  | DEBUG => "DEBUG"
  | INFO => "INFO"
  | WARN => "WARN"
  | ERROR => "ERROR"
  | FATAL => "FATAL"
  end.

(** ** core/LogEntry.ts and the error classes

    [LogEntry] carries an optional [Error], and [TransportError] carries the
    [LogEntry] that was not sent, so the record is parametrised by the type of
    errors and the knot is tied in [JsError]. *)

Record LogEntryOf (E : Type) : Type := mkLogEntry {
  level : LogLevel;
  message : string;
  timestamp : Z;
  error : option E;
  context : option JsRecord
}.

Arguments mkLogEntry {E}.
Arguments level {E}.
Arguments message {E}.
Arguments timestamp {E}.
Arguments error {E}.
Arguments context {E}.

(** Values that the modelled code throws or rejects with.  [Error] is
    [new Error(message)], [TypeError] is what the runtime raises when a
    non-function is called, [TransportError] is the class of
    [transports/Transport.ts]. *)
#[warnings="-register-all"]
Inductive JsError : Type :=
| Error (msg : string)
| TypeError (msg : string)
| TransportError (msg : string) (transportName : string)
                 (entry : LogEntryOf JsError) (cause : JsError).

Abbreviation LogEntry := (LogEntryOf JsError).

(** [e.message] *)
Definition error_message (e : JsError) : string :=
  match e with
  | Error m => m
  | TypeError m => m
  | TransportError m _ _ _ => m
  end.

(** ** Outcomes of calls and of promises *)

(** A synchronous call either returns or throws. *)
Inductive Completion (A : Type) : Type :=
| Normal (a : A)
| Throw (e : JsError).

Arguments Normal {A}.
Arguments Throw {A}.

(** The fate of a promise: it is fulfilled, it is rejected, or it never
    settles. *)
Inductive Fate (A : Type) : Type :=
| Fulfills (a : A)
| Rejects (e : JsError)
| Hangs.

Arguments Fulfills {A}.
Arguments Rejects {A}.
Arguments Hangs {A}.

(** What the caller of a method holds once the call has returned. *)
Inductive JsReturn : Type :=
| Undefined
| PromiseOf (f : Fate unit).

(** ** The console *)

Inductive ConsoleMethod : Type :=
| console_debug
| console_info
| console_warn
| console_error.

(** One call [console.m(text)] or [console.m(text, detail)]. *)
Record ConsoleCall : Type := mkConsoleCall {
  method : ConsoleMethod;
  text : string;
  detail : option JsError
}.

(** ** The host environment

    [World] is the state owned by user code and by the platform;
    [currentTime] is what [new Date()] reads; [uuidv4] is the function of the
    [uuid] package; [toISOString] is [Date.prototype.toISOString] on the
    time values of valid dates.  A timestamp is such a time value: the
    invalid [Date], on which [toISOString] throws a [RangeError], is not
    represented, so what is said of the default line of the console
    backend holds for records whose timestamp is a valid date, as the one
    [createLogEntry] reads off the clock always is. *)
Class Host : Type := {
  World : Type;
  currentTime : World -> Z;
  uuidv4 : World -> World * string;
  toISOString : Z -> string
}.

Definition dquote : string := String "034"%char EmptyString.

Section Contracts.
Context `{Host}.

(** User-supplied code: it may change the world and append to the console. *)
Definition Ext (A : Type) : Type := World -> World * list ConsoleCall * A.

(** *** plugins/Plugin.ts

    [(entry) => Promise<LogEntry | null> | LogEntry | null]; calling it may
    also throw. *)
Inductive PluginReturn : Type :=
| RetValue (v : option LogEntry)
| RetPromise (p : Fate (option LogEntry)).

Definition Plugin : Type := LogEntry -> Ext (Completion PluginReturn).

(** *** transports/Transport.ts

    [send(entry): Promise<void>]: the call returns a promise, unless it
    throws before doing so. *)
Record Transport : Type := mkTransport {
  name : string;
  send : LogEntry -> Ext (Completion (Fate unit))
}.

(** *** core/LogEntry.ts: the factory *)
Definition createLogEntry (level : LogLevel) (message : string)
    (error : option JsError) (context : option JsRecord) (w : World)
  : LogEntry :=
  {| timestamp := currentTime w;
     level := level;
     message := message;
     error := error;
     context := context |}.

End Contracts.

(** ** transports/ConsoleTransport.ts *)

Record ConsoleTransportOptions `{Host} : Type := mkConsoleTransportOptions {
  formatter : option (LogEntry -> Ext (Completion string))
}.

Arguments mkConsoleTransportOptions {H}.

Module ConsoleTransport.
Section WithHost.
Context `{Host}.

(** [entry.timestamp] is taken to be a valid date, see [Host]. *)
Definition defaultFormatter (entry : LogEntry) : string :=
  let label := LOG_LEVEL_LABELS (level entry) in
  let time := toISOString (timestamp entry) in
  let errorPart :=
    match error entry with
    | Some e => " | " ++ error_message e
    | None => ""
    end in
  "[" ++ time ++ "] [" ++ label ++ "] " ++ message entry ++ errorPart.

(** The object literal has the four keys DEBUG, INFO, WARN and ERROR; the
    lookup of any other key yields [undefined]. *)
Definition resolveConsoleMethod (level : LogLevel) : option ConsoleMethod :=
  match level with
  | DEBUG => Some console_debug
  | INFO => Some console_info
  | WARN => Some console_warn
  | ERROR => Some console_error
  | FATAL => None
  end.

(** The body of the [try] block. *)
Definition try_send (options : ConsoleTransportOptions) (entry : LogEntry)
  : Ext (Completion unit) :=
  fun w =>
    let '(w1, out, msg) :=
      match formatter options with
      | Some f => f entry w
      | None => (w, [], Normal (defaultFormatter entry))
      end in
    match msg with
    | Throw e => (w1, out, Throw e)
    | Normal message =>
        match resolveConsoleMethod (level entry) with
        | Some consoleMethod =>
            (w1, (out ++ [mkConsoleCall consoleMethod message None])%list,
             Normal tt)
        | None =>
            (w1, out, Throw (TypeError "consoleMethod is not a function"))
        end
    end.

(** [async send]: whatever the [try] block throws is wrapped in a
    [TransportError], and since the method is [async] the throw becomes the
    rejection of the returned promise. *)
Definition send (options : ConsoleTransportOptions) (entry : LogEntry)
  : Ext (Completion (Fate unit)) :=
  fun w =>
    let '(w1, out, r) := try_send options entry w in
    match r with
    | Normal _ => (w1, out, Normal (Fulfills tt))
    | Throw error =>
        (w1, out,
         Normal (Rejects (TransportError "ConsoleTransport failed to send entry"
                            "console" entry error)))
    end.

Definition new (options : ConsoleTransportOptions) : Transport :=
  mkTransport "console" (send options).

End WithHost.
End ConsoleTransport.

(** ** core/Logger.ts: data *)

Module LoggerConfig.
(** The configuration as the caller writes it: every option may be absent. *)
Record t `{Host} : Type := mk {
  minLevel : option LogLevel;
  transports : option (list Transport);
  plugins : option (list Plugin);
  generateId : option (Ext string)
}.

Arguments mk {H}.
End LoggerConfig.

Record ResolvedConfig `{Host} : Type := mkResolvedConfig {
  minLevel : LogLevel;
  transports : list Transport;
  plugins : list Plugin;
  generateId : Ext string
}.

Arguments mkResolvedConfig {H}.

(** A [Logger] object.  [oid] stands for the identity of the object: it is
    the number of [Logger] objects constructed before this one. *)
Record Logger `{Host} : Type := mkLogger {
  oid : nat;
  config : ResolvedConfig
}.

Arguments mkLogger {H}.

(** Observations recorded while a call runs: the record factory was invoked
    and produced [entry]; the stage at position [index] was invoked on
    [entry]; [send] of the backend at position [index] was invoked on
    [entry]. *)
Inductive Event : Type :=
| EvCreateLogEntry (entry : LogEntry)
| EvPlugin (index : nat) (entry : LogEntry)
| EvSend (index : nat) (transportName : string) (entry : LogEntry).

(** The state of the program: the static slot [Logger.instance], the number
    of loggers constructed so far, the world of user code, the console
    output, the observation trace, and the rejections nobody handled. *)
Record Sys `{Host} : Type := mkSys {
  instance : option Logger;
  allocated : nat;
  ext : World;
  console : list ConsoleCall;
  trace : list Event;
  unhandled : list JsError
}.

Arguments mkSys {H}.

Section Effects.
Context `{Host}.

(** Synchronous library code: state passing with exceptions. *)
Definition M (A : Type) : Type := Sys -> Sys * Completion A.

Definition set_instance (i : option Logger) (s : Sys) : Sys :=
  mkSys i (allocated s) (ext s) (console s) (trace s) (unhandled s).

Definition count_allocation (s : Sys) : Sys :=
  mkSys (instance s) (S (allocated s)) (ext s) (console s) (trace s)
    (unhandled s).

Definition observe (ev : Event) (s : Sys) : Sys :=
  mkSys (instance s) (allocated s) (ext s) (console s) (trace s ++ [ev])
    (unhandled s).

Definition console_call (c : ConsoleCall) (s : Sys) : Sys :=
  mkSys (instance s) (allocated s) (ext s) (console s ++ [c]) (trace s)
    (unhandled s).

Definition unhandled_rejection (e : JsError) (s : Sys) : Sys :=
  mkSys (instance s) (allocated s) (ext s) (console s) (trace s)
    (unhandled s ++ [e]).

(** Running user code inside the system. *)
Definition run_ext {A : Type} (f : Ext A) (s : Sys) : Sys * A :=
  let '(w, out, a) := f (ext s) in
  (mkSys (instance s) (allocated s) w (console s ++ out) (trace s)
     (unhandled s), a).

(** [await v]: a value that is not a promise is awaited as itself; a call
    that throws inside an [async] body rejects the body's promise exactly as
    an awaited rejection does. *)
Definition await_plugin (c : Completion PluginReturn)
  : Fate (option LogEntry) :=
  match c with
  | Throw e => Rejects e
  | Normal (RetValue v) => Fulfills v
  | Normal (RetPromise p) => p
  end.

End Effects.

(** ** core/Logger.ts: operations *)

Module Logger.
Section WithHost.
Context `{Host}.

(** *** Config

    [resolveConfig] keeps the caller's arrays; they are values here, so a
    client that goes on mutating an array it passed to [init] is not
    represented. *)

Definition resolveConfig (config : LoggerConfig.t) : ResolvedConfig :=
  {| minLevel :=
       match LoggerConfig.minLevel config with
       | Some l => l
       | None => DEBUG
       end;
     transports :=
       match LoggerConfig.transports config with
       | Some ts => ts
       | None => []
       end;
     plugins :=
       match LoggerConfig.plugins config with
       | Some ps => ps
       | None => []
       end;
     generateId :=
       match LoggerConfig.generateId config with
       | Some g => g
       | None => fun w => let '(w', id) := uuidv4 w in (w', [], id)
       end |}.

(** The private constructor; [o] is the identity of the new object. *)
Definition new (o : nat) (config : LoggerConfig.t) : Logger :=
  {| oid := o; config := resolveConfig config |}.

(** *** Singleton API *)

Definition already_initialized : JsError :=
  Error "Logger is already initialized. Call Logger.getInstance() to get the existing instance.".

Definition not_initialized : JsError :=
  Error "Logger is not initialized. Call Logger.init(config) first.".

Definition init (config : LoggerConfig.t) : M Logger :=
  fun s =>
    match instance s with
    | Some _ => (s, Throw already_initialized)
    | None =>
        let l := new (allocated s) config in
        (set_instance (Some l) (count_allocation s), Normal l)
    end.

Definition getInstance : M Logger :=
  fun s =>
    match instance s with
    | None => (s, Throw not_initialized)
    | Some l => (s, Normal l)
    end.

Definition reset : M unit :=
  fun s => (set_instance None s, Normal tt).

(** *** Plugin management *)

Definition addPlugin (plugin : Plugin) (this : Logger) : Logger :=
  let c := config this in
  mkLogger (oid this)
    (mkResolvedConfig (minLevel c) (transports c) (plugins c ++ [plugin])
       (generateId c)).

(** *** Transport management *)

Definition already_registered (transportName : string) : JsError :=
  Error ("Transport with name " ++ dquote ++ transportName ++ dquote
         ++ " is already registered.").

Definition addTransport (transport : Transport) (this : Logger)
  : Completion Logger :=
  let c := config this in
  let exists_ :=
    existsb (fun t => String.eqb (name t) (name transport)) (transports c) in
  if exists_ then Throw (already_registered (name transport))
  else
    Normal
      (mkLogger (oid this)
         (mkResolvedConfig (minLevel c) (transports c ++ [transport])
            (plugins c) (generateId c))).

Definition removeTransport (n : string) (this : Logger) : Logger :=
  let c := config this in
  mkLogger (oid this)
    (mkResolvedConfig (minLevel c)
       (filter (fun t => negb (String.eqb (name t) n)) (transports c))
       (plugins c) (generateId c)).

(** *** Core *)

(** The console fallback of [dispatch]. *)
Definition failure_report (transportName : string) (error : JsError)
  : ConsoleCall :=
  mkConsoleCall console_error
    ("[Logger] Transport " ++ dquote ++ transportName ++ dquote ++ " failed:")
    (Some error).

(** [this.config.transports.map(t => t.send(entry).catch(...))]: [send] is
    called on every transport in array order.  The result lists, for every
    call that returned, the transport's name and the fate of its promise
    (the [catch] handler is attached to it); if a call throws, [map] stops
    there and the exception is the third component. *)
Fixpoint map_send (ts : list Transport) (i : nat) (entry : LogEntry) (s : Sys)
  : Sys * list (string * Fate unit) * option JsError :=
  match ts with
  | [] => (s, [], None)
  | transport :: rest =>
      let '(s1, r) :=
        run_ext (send transport entry)
          (observe (EvSend i (name transport) entry) s) in
      match r with
      | Throw e => (s1, [], Some e)
      | Normal p =>
          let '(s2, promises, thrown) := map_send rest (S i) entry s1 in
          (s2, (name transport, p) :: promises, thrown)
      end
  end.

(** The [catch] handlers run once their promises have settled: a rejection
    is reported on the console, anything else needs no handling.  In the
    code the handler of a promise runs when that promise rejects, so
    several reports appear in the order in which the promises reject; a
    fate does not record when its promise settles, and the handlers are run
    here in array order, which is one of the possible orders.  Which
    reports are printed does not depend on the order; the order among
    several reports does, and is determined by nothing here. *)
Fixpoint run_catch (promises : list (string * Fate unit)) (s : Sys) : Sys :=
  match promises with
  | [] => s
  | (n, Rejects error) :: rest =>
      run_catch rest (console_call (failure_report n error) s)
  | _ :: rest => run_catch rest s
  end.

(** [Promise.allSettled(promises)] is created and dropped; it never
    rejects. *)
Definition dispatch (entry : LogEntry) (this : Logger) : M unit :=
  fun s =>
    let '(s1, promises, thrown) :=
      map_send (transports (config this)) 0 entry s in
    let s2 := run_catch promises s1 in
    match thrown with
    | Some e => (s2, Throw e)
    | None => (s2, Normal tt)
    end.

(** How the [for ... of] loop over the plugins ends. *)
Inductive ChainResult : Type :=
| Survived (processedEntry : LogEntry)
| Dropped
| Failed (e : JsError)
| Stalled.

(** The loop of [log], started at the plugin of position [i]:
    [processedEntry = await plugin(processedEntry);
     if (processedEntry === null) return;] *)
Fixpoint run_plugins (ps : list Plugin) (i : nat) (processedEntry : LogEntry)
    (s : Sys) : Sys * ChainResult :=
  match ps with
  | [] => (s, Survived processedEntry)
  | plugin :: rest =>
      let '(s1, r) :=
        run_ext (plugin processedEntry)
          (observe (EvPlugin i processedEntry) s) in
      match await_plugin r with
      | Fulfills (Some e) => run_plugins rest (S i) e s1
      | Fulfills None => (s1, Dropped)
      | Rejects err => (s1, Failed err)
      | Hangs => (s1, Stalled)
      end
  end.

(** [private async log(level, message, extras)]; the two fields of [extras]
    are passed as [error] and [context].  The result is the fate of the
    promise that the [async] method returns. *)
Definition log (level : LogLevel) (message : string)
    (error : option JsError) (context : option JsRecord) (this : Logger)
    (s : Sys) : Sys * Fate unit :=
  if (level_value level <? level_value (minLevel (config this)))%Z
  then (s, Fulfills tt)
  else
    let processedEntry := createLogEntry level message error context (ext s) in
    let s1 := observe (EvCreateLogEntry processedEntry) s in
    match run_plugins (plugins (config this)) 0 processedEntry s1 with
    | (s2, Survived processedEntry) =>
        match dispatch processedEntry this s2 with
        | (s3, Normal _) => (s3, Fulfills tt)
        | (s3, Throw e) => (s3, Rejects e)
        end
    | (s2, Dropped) => (s2, Fulfills tt)
    | (s2, Failed e) => (s2, Rejects e)
    | (s2, Stalled) => (s2, Hangs)
    end.

(** *** Public logging API

    Each method calls [this.log(...)] and drops the promise: the method
    itself returns [undefined], and a rejection of the dropped promise is
    handled by nobody. *)
Definition floating (p : Sys -> Sys * Fate unit) : M JsReturn :=
  fun s =>
    let '(s1, f) := p s in
    match f with
    | Rejects e => (unhandled_rejection e s1, Normal Undefined)
    | _ => (s1, Normal Undefined)
    end.

Definition debug (message : string) (context : option JsRecord)
    (this : Logger) : M JsReturn :=
  floating (log DEBUG message None context this).

Definition info (message : string) (context : option JsRecord)
    (this : Logger) : M JsReturn :=
  floating (log INFO message None context this).

Definition warn (message : string) (context : option JsRecord)
    (this : Logger) : M JsReturn :=
  floating (log WARN message None context this).

Definition error (message : string) (error : option JsError)
    (context : option JsRecord) (this : Logger) : M JsReturn :=
  floating (log ERROR message error context this).

Definition fatal (message : string) (error : option JsError)
    (context : option JsRecord) (this : Logger) : M JsReturn :=
  floating (log FATAL message error context this).

End WithHost.
End Logger.

(** ** Client programs

    A client drives the library through its public surface: the three static
    methods, and the instance methods called on [Logger.getInstance()]. *)

Section Programs.
Context `{Host}.

(** One call of a public logging method. *)
Inductive Call : Type :=
| CallDebug (message : string) (context : option JsRecord)
| CallInfo (message : string) (context : option JsRecord)
| CallWarn (message : string) (context : option JsRecord)
| CallError (message : string) (error : option JsError)
            (context : option JsRecord)
| CallFatal (message : string) (error : option JsError)
            (context : option JsRecord).

Definition invoke (c : Call) (this : Logger) : M JsReturn :=
  match c with
  | CallDebug m ctx => Logger.debug m ctx this
  | CallInfo m ctx => Logger.info m ctx this
  | CallWarn m ctx => Logger.warn m ctx this
  | CallError m e ctx => Logger.error m e ctx this
  | CallFatal m e ctx => Logger.fatal m e ctx this
  end.

Definition call_level (c : Call) : LogLevel :=
  match c with
  | CallDebug _ _ => DEBUG
  | CallInfo _ _ => INFO
  | CallWarn _ _ => WARN
  | CallError _ _ _ => ERROR
  | CallFatal _ _ _ => FATAL
  end.

Definition call_message (c : Call) : string :=
  match c with
  | CallDebug m _ | CallInfo m _ | CallWarn m _ => m
  | CallError m _ _ | CallFatal m _ _ => m
  end.

Definition call_error (c : Call) : option JsError :=
  match c with
  | CallDebug _ _ | CallInfo _ _ | CallWarn _ _ => None
  | CallError _ e _ | CallFatal _ e _ => e
  end.

Definition call_context (c : Call) : option JsRecord :=
  match c with
  | CallDebug _ ctx | CallInfo _ ctx | CallWarn _ ctx => ctx
  | CallError _ _ ctx | CallFatal _ _ ctx => ctx
  end.

(** The promise that the call creates internally and drops. *)
Definition call_log (c : Call) (this : Logger) (s : Sys) : Sys * Fate unit :=
  Logger.log (call_level c) (call_message c) (call_error c) (call_context c)
    this s.

(** The record that the call builds when it passes the threshold. *)
Definition call_entry (c : Call) (s : Sys) : LogEntry :=
  createLogEntry (call_level c) (call_message c) (call_error c)
    (call_context c) (ext s).

Inductive Op : Type :=
| OpInit (config : LoggerConfig.t)
| OpGetInstance
| OpReset
| OpLog (c : Call)
| OpAddPlugin (plugin : Plugin)
| OpAddTransport (transport : Transport)
| OpRemoveTransport (n : string).

Inductive Answer : Type :=
| AnsLogger (l : Logger)
| AnsUndefined.

Definition step (op : Op) : M Answer :=
  fun s =>
    match op with
    | OpInit config =>
        match Logger.init config s with
        | (s1, Normal l) => (s1, Normal (AnsLogger l))
        | (s1, Throw e) => (s1, Throw e)
        end
    | OpGetInstance =>
        match Logger.getInstance s with
        | (s1, Normal l) => (s1, Normal (AnsLogger l))
        | (s1, Throw e) => (s1, Throw e)
        end
    | OpReset => (fst (Logger.reset s), Normal AnsUndefined)
    | OpLog c =>
        match Logger.getInstance s with
        | (s1, Normal l) =>
            match invoke c l s1 with
            | (s2, Normal _) => (s2, Normal AnsUndefined)
            | (s2, Throw e) => (s2, Throw e)
            end
        | (s1, Throw e) => (s1, Throw e)
        end
    | OpAddPlugin plugin =>
        match Logger.getInstance s with
        | (s1, Normal l) =>
            (set_instance (Some (Logger.addPlugin plugin l)) s1,
             Normal AnsUndefined)
        | (s1, Throw e) => (s1, Throw e)
        end
    | OpAddTransport transport =>
        match Logger.getInstance s with
        | (s1, Normal l) =>
            match Logger.addTransport transport l with
            | Normal l' => (set_instance (Some l') s1, Normal AnsUndefined)
            | Throw e => (s1, Throw e)
            end
        | (s1, Throw e) => (s1, Throw e)
        end
    | OpRemoveTransport n =>
        match Logger.getInstance s with
        | (s1, Normal l) =>
            (set_instance (Some (Logger.removeTransport n l)) s1,
             Normal AnsUndefined)
        | (s1, Throw e) => (s1, Throw e)
        end
    end.

(** A program is a list of operations; an operation that throws is caught
    by the client and the program goes on. *)
Fixpoint run (ops : list Op) (s : Sys) : Sys * list (Completion Answer) :=
  match ops with
  | [] => (s, [])
  | op :: rest =>
      let '(s1, a) := step op s in
      let '(s2, answers) := run rest s1 in
      (s2, a :: answers)
  end.

Definition is_reset (op : Op) : bool :=
  match op with
  | OpReset => true
  | _ => false
  end.

Definition is_init (op : Op) : bool :=
  match op with
  | OpInit _ => true
  | _ => false
  end.

(** *** Reading the observations *)

(** What a call added to the trace and to the console. *)
Definition events_since (s s' : Sys) : list Event :=
  skipn (length (trace s)) (trace s').

Definition console_since (s s' : Sys) : list ConsoleCall :=
  skipn (length (console s)) (console s').

(** Positions of the stages that were invoked, in the order of invocation. *)
Fixpoint plugin_calls (tr : list Event) : list nat :=
  match tr with
  | [] => []
  | EvPlugin i _ :: rest => i :: plugin_calls rest
  | _ :: rest => plugin_calls rest
  end.

(** Backends whose [send] was invoked, with position, name and record. *)
Fixpoint send_calls (tr : list Event) : list (nat * string * LogEntry) :=
  match tr with
  | [] => []
  | EvSend i n e :: rest => (i, n, e) :: send_calls rest
  | _ :: rest => send_calls rest
  end.

(** Records that the factory built. *)
Fixpoint created (tr : list Event) : list LogEntry :=
  match tr with
  | [] => []
  | EvCreateLogEntry e :: rest => e :: created rest
  | _ :: rest => created rest
  end.

(** [extends s s' d]: from [s] to [s'] the singleton slot, the allocation
    count and the unhandled rejections are untouched, the trace grew by [d],
    and the console only grew. *)
Definition extends (s s' : Sys) (d : list Event) : Prop :=
  instance s' = instance s /\
  allocated s' = allocated s /\
  unhandled s' = unhandled s /\
  trace s' = (trace s ++ d)%list /\
  exists out, console s' = (console s ++ out)%list.

(** An error reaches the caller of a method if the call throws it, or if
    the call returns a promise that rejects with it. *)
Definition propagates_to_caller (r : Completion JsReturn) (e : JsError)
  : Prop :=
  r = Throw e \/ r = Normal (PromiseOf (Rejects e)).

(** The call passes the threshold and its record survives the whole stage
    chain as [e], leaving the system in [s2]. *)
Definition survives_chain (c : Call) (this : Logger) (s : Sys)
    (e : LogEntry) (s2 : Sys) : Prop :=
  (level_value (minLevel (config this)) <= level_value (call_level c))%Z /\
  Logger.run_plugins (plugins (config this)) 0 (call_entry c s)
    (observe (EvCreateLogEntry (call_entry c s)) s) = (s2, Logger.Survived e).

(** The call passes the threshold, the chain is [pre ++ p :: post], and the
    record survives the stages of [pre]: the stage [p], at position
    [length pre], is about to be invoked on [e1] in state [s1]. *)
Definition reaches_stage (c : Call) (this : Logger) (s : Sys)
    (pre : list Plugin) (p : Plugin) (post : list Plugin)
    (e1 : LogEntry) (s1 : Sys) : Prop :=
  (level_value (minLevel (config this)) <= level_value (call_level c))%Z /\
  plugins (config this) = (pre ++ p :: post)%list /\
  Logger.run_plugins pre 0 (call_entry c s)
    (observe (EvCreateLogEntry (call_entry c s)) s) = (s1, Logger.Survived e1).

(** *** Equality up to [generateId]

    Two configurations, loggers, systems, operations or answers are similar
    when they agree on everything except the id generator that a
    configuration holds. *)
Definition config_sim (c1 c2 : ResolvedConfig) : Prop :=
  minLevel c1 = minLevel c2 /\
  transports c1 = transports c2 /\
  plugins c1 = plugins c2.

Definition logger_sim (l1 l2 : Logger) : Prop :=
  oid l1 = oid l2 /\ config_sim (config l1) (config l2).

Definition instance_sim (i1 i2 : option Logger) : Prop :=
  match i1, i2 with
  | Some l1, Some l2 => logger_sim l1 l2
  | None, None => True
  | _, _ => False
  end.

Definition sys_sim (s1 s2 : Sys) : Prop :=
  instance_sim (instance s1) (instance s2) /\
  allocated s1 = allocated s2 /\
  ext s1 = ext s2 /\
  console s1 = console s2 /\
  trace s1 = trace s2 /\
  unhandled s1 = unhandled s2.

Definition op_sim (o1 o2 : Op) : Prop :=
  match o1, o2 with
  | OpInit c1, OpInit c2 =>
      LoggerConfig.minLevel c1 = LoggerConfig.minLevel c2 /\
      LoggerConfig.transports c1 = LoggerConfig.transports c2 /\
      LoggerConfig.plugins c1 = LoggerConfig.plugins c2
  | _, _ => o1 = o2
  end.

Definition answer_sim (a1 a2 : Completion Answer) : Prop :=
  match a1, a2 with
  | Normal (AnsLogger l1), Normal (AnsLogger l2) => logger_sim l1 l2
  | _, _ => a1 = a2
  end.

(** *** The name invariant of the backend collection *)

(** No two backends of the collection have the same name. *)
Definition unique_names (ts : list Transport) : Prop :=
  NoDup (map name ts).

(** An operation that cannot bring in two backends of one name: any
    operation but an [init] whose configuration lists such backends. *)
Definition init_unique (op : Op) : Prop :=
  match op with
  | OpInit cfg =>
      match LoggerConfig.transports cfg with
      | Some ts => unique_names ts
      | None => True
      end
  | _ => True
  end.


(** *** Stages and backends by what they return

    The definitions below run the stages and the backends on their own,
    without the logger, so that a statement can say what user code does
    independently of how [Logger.log] drives it. *)

(** The stage answers with [v]: it returns [v] itself, or it returns a
    promise that is fulfilled with [v]. *)
Definition answers (r : Completion PluginReturn) (v : option LogEntry)
  : Prop :=
  r = Normal (RetValue v) \/ r = Normal (RetPromise (Fulfills v)).

(** The record a stage answers with, if it answers with one. *)
Definition answered (r : Completion PluginReturn) : option LogEntry :=
  match r with
  | Normal (RetValue (Some e)) => Some e
  | Normal (RetPromise (Fulfills (Some e))) => Some e
  | _ => None
  end.

(** [stages_pass ps e w]: the stages [ps] are called one after the other,
    the first on the record [e] in the world [w], each next one on the
    record its predecessor answered with and in the world its predecessor
    left behind, and every one of them answers with a record.  The result
    lists the records the stages were called on, then gives the answer of
    the last stage and the world it leaves. *)
Fixpoint stages_pass (ps : list Plugin) (e : LogEntry) (w : World)
  : option (list LogEntry * LogEntry * World) :=
  match ps with
  | [] => Some ([], e, w)
  | p :: rest =>
      let '(w1, _, r) := p e w in
      match answered r with
      | Some e1 =>
          match stages_pass rest e1 w1 with
          | Some (ins, e', w') => Some (e :: ins, e', w')
          | None => None
          end
      | None => None
      end
  end.

(** Stages that were invoked, each with the record it was invoked on. *)
Fixpoint plugin_events (tr : list Event) : list (nat * LogEntry) :=
  match tr with
  | [] => []
  | EvPlugin i e :: rest => (i, e) :: plugin_events rest
  | _ :: rest => plugin_events rest
  end.

(** [fanout_run ts e w]: [send] is called with [e] on the backends [ts] one
    after the other, the first in the world [w], each next one in the world
    its predecessor left behind.  For every backend: what the call printed
    and what it returned. *)
Fixpoint fanout_run (ts : list Transport) (e : LogEntry) (w : World)
  : list (Transport * list ConsoleCall * Completion (Fate unit)) :=
  match ts with
  | [] => []
  | t :: rest =>
      let '(w1, out, r) := send t e w in
      (t, out, r) :: fanout_run rest e w1
  end.

(** The call of [send] returned a promise. *)
Definition returns_promise
    (x : Transport * list ConsoleCall * Completion (Fate unit)) : Prop :=
  exists p, snd x = Normal p.


(** *** Stock stages and backends, as the test-suite builds them *)

(** A backend that accepts every record. *)
Definition working (n : string) : Transport :=
  mkTransport n (fun _ w => (w, [], Normal (Fulfills tt))).

(** A backend whose promise rejects: [mockRejectedValue(err)]. *)
Definition failing (n : string) (err : JsError) : Transport :=
  mkTransport n (fun _ w => (w, [], Normal (Rejects err))).

(** A backend whose [send] is not [async] and throws. *)
Definition throwing (n : string) (err : JsError) : Transport :=
  mkTransport n (fun _ w => (w, [], Throw err)).

(** [(entry) => ({...entry, context: ctx})] *)
Definition enrich (ctx : JsRecord) : Plugin :=
  fun entry w =>
    (w, [],
     Normal (RetValue (Some (mkLogEntry (level entry) (message entry)
                               (timestamp entry) (error entry) (Some ctx))))).

(** [() => null] *)
Definition blockAll : Plugin :=
  fun _ w => (w, [], Normal (RetValue None)).

(** [async () => null] *)
Definition blockAllAsync : Plugin :=
  fun _ w => (w, [], Normal (RetPromise (Fulfills None))).

(** [(entry) => entry.message.includes(word) ? null : entry] *)
Definition dropIf (word : string) : Plugin :=
  fun entry w =>
    (w, [],
     Normal (RetValue (match String.index 0 word (message entry) with
                       | Some _ => None
                       | None => Some entry
                       end))).

(** [() => { throw err }] *)
Definition faulty (err : JsError) : Plugin :=
  fun _ w => (w, [], Throw err).

(** [async () => { throw err }] *)
Definition faultyAsync (err : JsError) : Plugin :=
  fun _ w => (w, [], Normal (RetPromise (Rejects err))).

(** A backend whose promise never settles. *)
Definition hanging (n : string) : Transport :=
  mkTransport n (fun _ w => (w, [], Normal Hangs)).

(** [() => new Promise(() => {})]: a stage that never answers. *)
Definition neverSettles : Plugin :=
  fun _ w => (w, [], Normal (RetPromise Hangs)).

End Programs.

(** ** core/Logger.ts, with the arrays as shared objects

    [resolveConfig] stores the arrays it is given, not copies: the logger
    and the code that called [init] hold the same two arrays.  [push]
    (in [addPlugin] and [addTransport]) mutates an array in place, while
    [filter] (in [removeTransport]) builds a new one.  Here the arrays live
    in a heap and are held by reference, a reference being a position in
    the heap; [view] reads a logger of this finer model as a [Logger] of
    the model above. *)

Module Shared.
Section WithHost.
Context `{Host}.

Record Heap : Type := mkHeap {
  tarrays : list (list Transport);
  parrays : list (list Plugin)
}.

(** The configuration as the caller holds it. *)
Record ConfigRef : Type := mkConfigRef {
  minLevelOpt : option LogLevel;
  transportsOpt : option nat;
  pluginsOpt : option nat;
  generateIdOpt : option (Ext string)
}.

(** [this.config] of a logger: a fresh object whose two array fields are
    references. *)
Record LoggerRef : Type := mkLoggerRef {
  oidRef : nat;
  minLevelRef : LogLevel;
  transportsRef : nat;
  pluginsRef : nat;
  generateIdRef : Ext string
}.

Definition read {A : Type} (arrays : list (list A)) (r : nat) : list A :=
  nth r arrays [].

(** Replace the array at [r]; no array is there to replace when [r] is out
    of range. *)
Fixpoint write {A : Type} (r : nat) (a : list A) (arrays : list (list A))
  : list (list A) :=
  match arrays, r with
  | [], _ => []
  | _ :: rest, 0 => a :: rest
  | x :: rest, S r' => x :: write r' a rest
  end.

(** [x ?? []]: the array given, or a newly allocated empty one. *)
Definition or_empty {A : Type} (x : option nat) (arrays : list (list A))
  : list (list A) * nat :=
  match x with
  | Some r => (arrays, r)
  | None => ((arrays ++ [[]])%list, length arrays)
  end.

(** [new Logger(config)], that is [resolveConfig]. *)
Definition new (o : nat) (config : ConfigRef) (h : Heap) : Heap * LoggerRef :=
  let '(ts, rt) := or_empty (transportsOpt config) (tarrays h) in
  let '(ps, rp) := or_empty (pluginsOpt config) (parrays h) in
  (mkHeap ts ps,
   mkLoggerRef o
     match minLevelOpt config with
     | Some l => l
     | None => DEBUG
     end
     rt rp
     match generateIdOpt config with
     | Some g => g
     | None => fun w => let '(w', id) := uuidv4 w in (w', [], id)
     end).

(** [this.config.plugins.push(plugin)] *)
Definition addPlugin (plugin : Plugin) (this : LoggerRef) (h : Heap) : Heap :=
  mkHeap (tarrays h)
    (write (pluginsRef this)
       (read (parrays h) (pluginsRef this) ++ [plugin])%list (parrays h)).

Definition addTransport (transport : Transport) (this : LoggerRef) (h : Heap)
  : Completion Heap :=
  let exists_ :=
    existsb (fun t => String.eqb (name t) (name transport))
      (read (tarrays h) (transportsRef this)) in
  if exists_ then Throw (Logger.already_registered (name transport))
  else
    Normal
      (mkHeap
         (write (transportsRef this)
            (read (tarrays h) (transportsRef this) ++ [transport])%list
            (tarrays h))
         (parrays h)).

(** [this.config.transports = this.config.transports.filter(...)]: the
    result of [filter] is a new array, and the field is redirected to it. *)
Definition removeTransport (n : string) (this : LoggerRef) (h : Heap)
  : Heap * LoggerRef :=
  (mkHeap
     (tarrays h ++
      [filter (fun t => negb (String.eqb (name t) n))
         (read (tarrays h) (transportsRef this))])%list
     (parrays h),
   mkLoggerRef (oidRef this) (minLevelRef this) (length (tarrays h))
     (pluginsRef this) (generateIdRef this)).

(** The logger as the model above sees it. *)
Definition view (this : LoggerRef) (h : Heap) : Logger :=
  mkLogger (oidRef this)
    (mkResolvedConfig (minLevelRef this)
       (read (tarrays h) (transportsRef this))
       (read (parrays h) (pluginsRef this))
       (generateIdRef this)).

Definition view_config (config : ConfigRef) (h : Heap) : LoggerConfig.t :=
  LoggerConfig.mk (minLevelOpt config)
    (option_map (read (tarrays h)) (transportsOpt config))
    (option_map (read (parrays h)) (pluginsOpt config))
    (generateIdOpt config).

(** References that point into the heap. *)
Definition allocated_in {A : Type} (x : option nat) (arrays : list (list A))
  : Prop :=
  match x with
  | Some r => r < length arrays
  | None => True
  end.

Definition config_ok (config : ConfigRef) (h : Heap) : Prop :=
  allocated_in (transportsOpt config) (tarrays h) /\
  allocated_in (pluginsOpt config) (parrays h).

Definition logger_ok (this : LoggerRef) (h : Heap) : Prop :=
  transportsRef this < length (tarrays h) /\
  pluginsRef this < length (parrays h).

End WithHost.
End Shared.

(** A host for closed examples: the world is a clock reading. *)
Definition demoHost : Host :=
  {| World := nat;
     currentTime := fun w => Z.of_nat w;
     uuidv4 := fun w => (w, "00000000-0000-4000-8000-000000000000");
     toISOString := fun _ => "1970-01-01T00:00:00.000Z" |}.

Definition demoSys (l : option (@Logger demoHost)) : @Sys demoHost :=
  mkSys l 1 42%nat [] [] [].

Definition demoLogger (min : LogLevel) (ts : list (@Transport demoHost))
    (ps : list (@Plugin demoHost)) : @Logger demoHost :=
  Logger.new 0 (LoggerConfig.mk (Some min) (Some ts) (Some ps) None).

Definition boom : JsError := Error "boom".

Definition networkError : JsError := Error "Network error".

Definition demoCtx : JsRecord := [("a", JsNumber 1)].

(** An [info] call, sent through chains in which a stage drops the
    record. *)
Definition demoSkip : Call := CallInfo "skip-me" None.

(** An [error] call through the chain [enrich; faulty]: the second stage
    throws. *)
Definition demoFail : Call := CallError "x" None None.

Definition demoFaultyLogger : @Logger demoHost :=
  demoLogger DEBUG [working "B"] [enrich demoCtx; faulty boom].

Definition demoFaultyAsyncLogger : @Logger demoHost :=
  demoLogger DEBUG [working "B"] [faultyAsync boom].

(** A [warn] call on two backends, the first of which always fails. *)
Definition demoWarn : Call := CallWarn "z" None.

Definition demoFanoutLogger : @Logger demoHost :=
  demoLogger INFO [failing "failing" networkError; working "working"] [].

(** An [error] call on two backends, the first of which throws instead of
    returning a promise. *)
Definition demoThrowingLogger : @Logger demoHost :=
  demoLogger DEBUG [throwing "A" boom; working "B"] [].

(** What the demo calls build on [demoSys]. *)
Definition demoEntry (l : LogLevel) (m : string) : LogEntry :=
  mkLogEntry l m 42%Z None None.

(** Lifecycle scenarios. *)
Definition demoHttpLogger : @Logger demoHost :=
  demoLogger DEBUG [working "http"] [].

Definition demoConfig1 : @LoggerConfig.t demoHost :=
  LoggerConfig.mk (Some WARN) (Some [working "http"]) None None.

(** [Logger.init({})] *)
Definition demoConfig2 : @LoggerConfig.t demoHost :=
  LoggerConfig.mk None None None None.

Definition demoActive : @Sys demoHost :=
  fst (Logger.init demoConfig1 (demoSys None)).

Definition demoBusy : list (@Op demoHost) :=
  [OpGetInstance; OpLog demoFail; OpInit demoConfig2; OpAddPlugin blockAll;
   OpRemoveTransport "http"].

Definition demoTeardown : list (@Op demoHost) :=
  [OpGetInstance; OpLog demoFail; OpReset; OpAddPlugin blockAll].

(** An id generator that would leave a mark on the world if it were ever
    called. *)
Definition demoGen : @Ext demoHost string :=
  fun w => (S w, [], "custom-id").

Definition demoSession (g : option (@Ext demoHost string))
  : list (@Op demoHost) :=
  [OpInit (LoggerConfig.mk (Some INFO)
             (Some [failing "failing" networkError; working "working"])
             (Some [enrich demoCtx]) g);
   OpLog demoWarn;
   OpAddTransport (working "late");
   OpLog demoFail;
   OpGetInstance].

Definition demoFatalEntry : LogEntry :=
  mkLogEntry FATAL "y" 42%Z (Some boom) None.

Definition demoConsoleLogger : @Logger demoHost :=
  demoLogger DEBUG [ConsoleTransport.new (mkConsoleTransportOptions None)] [].

(** The three concrete scenarios of the specification, as client
    programs. *)
Definition scenarioGate : list (@Op demoHost) :=
  [OpInit (LoggerConfig.mk (Some INFO) (Some [working "B"]) None None);
   OpLog (CallDebug "x" None);
   OpLog (CallError "y" None None)].

Definition scenarioChain : list (@Op demoHost) :=
  [OpInit (LoggerConfig.mk None (Some [working "B"])
             (Some [enrich demoCtx; dropIf "skip"]) None);
   OpLog (CallInfo "skip-me" None);
   OpLog (CallInfo "keep-me" None)].

Definition scenarioFanout : list (@Op demoHost) :=
  [OpInit (LoggerConfig.mk None
             (Some [failing "failing" networkError; working "working"])
             None None);
   OpLog (CallWarn "z" None)].

Definition scenarioAsyncDrop : list (@Op demoHost) :=
  [OpInit (LoggerConfig.mk None (Some [working "B"])
             (Some [blockAllAsync; enrich demoCtx]) None);
   OpLog (CallError "Test" None None)].

(** Scenarios for the backend collection, the fan-out and the chain. *)
Definition demoRegistry : list (@Op demoHost) :=
  [OpInit demoConfig1;
   OpAddTransport (working "file");
   OpAddTransport (working "http");
   OpRemoveTransport "http";
   OpInit demoConfig2;
   OpAddTransport (working "http")].

Definition demoMixedLogger : @Logger demoHost :=
  demoLogger INFO
    [failing "a" networkError; hanging "b"; failing "c" boom; working "d"]
    [enrich demoCtx].

(** The state in which the chain of [demoMixedLogger] hands the record of
    [demoWarn] to the fan-out. *)
Definition demoMixedSurvived : @Sys demoHost :=
  @mkSys demoHost None 1 42%nat []
    [EvCreateLogEntry (mkLogEntry WARN "z" 42%Z None None);
     EvPlugin 0 (mkLogEntry WARN "z" 42%Z None None)]
    [].

Definition demoEnriched (l : LogLevel) (m : string) : LogEntry :=
  mkLogEntry l m 42%Z None (Some demoCtx).

Definition demoThrowingMiddle : @Logger demoHost :=
  demoLogger DEBUG
    [failing "first" networkError; throwing "A" boom; working "B"] [].

Definition demoStallLogger : @Logger demoHost :=
  demoLogger DEBUG [working "B"] [enrich demoCtx; neverSettles; faulty boom].

Definition demoBlockedLogger : @Logger demoHost :=
  demoLogger DEBUG [working "B"] [blockAll].


(** A formatter that throws. *)
Definition demoBadFormatter : LogEntry -> @Ext demoHost (Completion string) :=
  fun _ w => (w, [], Throw boom).

(** A heap with the caller's array of backends and array of stages, both
    at position 0, and loggers over it. *)
Definition demoHeap : @Shared.Heap demoHost :=
  Shared.mkHeap [[working "http"]] [[enrich demoCtx]].

Definition demoSharedConfig : @Shared.ConfigRef demoHost :=
  Shared.mkConfigRef None (Some 0) (Some 0) None.

Definition demoSharedLogger : @Shared.LoggerRef demoHost :=
  snd (Shared.new 0 demoSharedConfig demoHeap).

(** Asynchronous stages.  [async (entry) => { await tick(); return
    {...entry, context: ctx} }]: the clock has advanced when the promise is
    fulfilled. *)
Definition demoEnrichAsync (ctx : JsRecord) : @Plugin demoHost :=
  fun entry w =>
    (S w, [],
     Normal (RetPromise (Fulfills
       (Some (mkLogEntry (level entry) (message entry) (timestamp entry)
                (error entry) (Some ctx)))))).

(** [async (entry) => ({...entry, timestamp: new Date()})] *)
Definition demoRestampAsync : @Plugin demoHost :=
  fun entry w =>
    (w, [],
     Normal (RetPromise (Fulfills
       (Some (mkLogEntry (level entry) (message entry) (currentTime w)
                (error entry) (context entry)))))).

(** An [info] call through an asynchronous chain whose third stage drops
    the record, and through the chain of its first two stages alone. *)
Definition demoAsyncDropLogger : @Logger demoHost :=
  demoLogger DEBUG [working "B"]
    [demoEnrichAsync demoCtx; demoRestampAsync; blockAllAsync; faulty boom].

Definition demoAsyncPassLogger : @Logger demoHost :=
  demoLogger DEBUG [working "B"] [demoEnrichAsync demoCtx; demoRestampAsync].

Definition demoSkipBuilt : LogEntry := mkLogEntry INFO "skip-me" 42%Z None None.

Definition demoSkipEnriched : LogEntry :=
  mkLogEntry INFO "skip-me" 42%Z None (Some demoCtx).

Definition demoSkipRestamped : LogEntry :=
  mkLogEntry INFO "skip-me" 43%Z None (Some demoCtx).



(** * Properties *)

Section Properties.
Context `{Host}.
Local Open Scope list_scope.

(** ** Lists and observations *)

Ltac splits := repeat match goal with |- _ /\ _ => split end.

Lemma skipn_length_app {A : Type} (l d : list A) :
  skipn (length l) (l ++ d) = d.
Proof. induction l as [|a l IH]; simpl; auto. Qed.

Lemma plugin_calls_app (tr1 tr2 : list Event) :
  plugin_calls (tr1 ++ tr2) = plugin_calls tr1 ++ plugin_calls tr2.
Proof.
  induction tr1 as [|ev tr1 IH]; simpl; auto.
  destruct ev; simpl; rewrite IH; reflexivity.
Qed.

Lemma send_calls_app (tr1 tr2 : list Event) :
  send_calls (tr1 ++ tr2) = send_calls tr1 ++ send_calls tr2.
Proof.
  induction tr1 as [|ev tr1 IH]; simpl; auto.
  destruct ev; simpl; rewrite IH; reflexivity.
Qed.

Lemma created_app (tr1 tr2 : list Event) :
  created (tr1 ++ tr2) = created tr1 ++ created tr2.
Proof.
  induction tr1 as [|ev tr1 IH]; simpl; auto.
  destruct ev; simpl; rewrite IH; reflexivity.
Qed.

(** ** What a logging call may touch *)

Lemma extends_refl (s : Sys) : extends s s [].
Proof.
  unfold extends; repeat split; auto.
  - symmetry; apply app_nil_r.
  - exists []; symmetry; apply app_nil_r.
Qed.

Lemma extends_trans (s s1 s2 : Sys) (d1 d2 : list Event) :
  extends s s1 d1 -> extends s1 s2 d2 -> extends s s2 (d1 ++ d2).
Proof.
  intros (Hi & Ha & Hu & Ht & o1 & Hc) (Hi' & Ha' & Hu' & Ht' & o2 & Hc').
  unfold extends; repeat split; try congruence.
  - rewrite Ht', Ht, app_assoc; reflexivity.
  - exists (o1 ++ o2); rewrite Hc', Hc, app_assoc; reflexivity.
Qed.

Lemma extends_observe (ev : Event) (s : Sys) : extends s (observe ev s) [ev].
Proof.
  unfold extends, observe; simpl; repeat split; auto.
  exists []; now rewrite app_nil_r.
Qed.

Lemma extends_console_call (c : ConsoleCall) (s : Sys) :
  extends s (console_call c s) [].
Proof.
  unfold extends, console_call; simpl; repeat split; auto.
  - now rewrite app_nil_r.
  - now exists [c].
Qed.

Lemma extends_run_ext {A : Type} (f : Ext A) (s : Sys) :
  extends s (fst (run_ext f s)) [].
Proof.
  unfold extends, run_ext.
  destruct (f (ext s)) as [[w out] a]; simpl; repeat split; auto.
  - now rewrite app_nil_r.
  - now exists out.
Qed.

Lemma run_ext_snd {A : Type} (f : Ext A) (s : Sys) :
  snd (run_ext f s) = snd (f (ext s)).
Proof.
  unfold run_ext; destruct (f (ext s)) as [[w out] a]; reflexivity.
Qed.

Lemma extends_events (s s' : Sys) (d : list Event) :
  extends s s' d -> events_since s s' = d.
Proof.
  intros (_ & _ & _ & Ht & _); unfold events_since.
  rewrite Ht; apply skipn_length_app.
Qed.

(** ** The stage chain *)

(** Stages run one after the other: the chain [pre ++ rest] is the chain
    [pre] followed, if the record survives it, by the chain [rest] started
    on the record and in the state that [pre] ends with. *)
Lemma run_plugins_app (pre rest : list Plugin) :
  forall (i : nat) (e : LogEntry) (s : Sys),
    Logger.run_plugins (pre ++ rest) i e s =
    match Logger.run_plugins pre i e s with
    | (s1, Logger.Survived e1) =>
        Logger.run_plugins rest (i + length pre) e1 s1
    | (s1, r) => (s1, r)
    end.
Proof.
  induction pre as [|p pre IH]; intros i e s; simpl.
  - rewrite Nat.add_0_r; reflexivity.
  - destruct (run_ext (p e) (observe (EvPlugin i e) s)) as [s1 r].
    destruct (await_plugin r) as [[e1|]|err|]; try reflexivity.
    rewrite IH. replace (S i + length pre) with (i + S (length pre)) by lia.
    reflexivity.
Qed.

(** The chain invokes the stages of positions [i], [i+1], ... in this
    order, stops somewhere, touches no backend and builds no record; if the
    record survives, every stage was invoked. *)
Lemma run_plugins_extends (ps : list Plugin) :
  forall (i : nat) (e : LogEntry) (s : Sys),
  exists (d : list Event) (n : nat),
    extends s (fst (Logger.run_plugins ps i e s)) d /\
    plugin_calls d = seq i n /\
    send_calls d = [] /\
    created d = [] /\
    n <= length ps /\
    (forall e', snd (Logger.run_plugins ps i e s) = Logger.Survived e' ->
                n = length ps).
Proof.
  induction ps as [|p ps IH]; intros i e s; simpl.
  - exists [], 0; splits; auto using extends_refl.
  - pose proof (extends_trans _ _ _ _ _ (extends_observe (EvPlugin i e) s)
                  (extends_run_ext (p e) (observe (EvPlugin i e) s))) as Hstep.
    destruct (run_ext (p e) (observe (EvPlugin i e) s)) as [s1 r].
    simpl in Hstep.
    destruct (await_plugin r) as [[e1|]|err|].
    + destruct (IH (S i) e1 s1) as (d & n & Hext & Hp & Hs & Hc & Hn & Hall).
      exists ([EvPlugin i e] ++ d), (S n); splits.
      * exact (extends_trans _ _ _ _ _ Hstep Hext).
      * simpl; rewrite Hp; reflexivity.
      * simpl; exact Hs.
      * simpl; exact Hc.
      * simpl; lia.
      * intros e' He'; rewrite (Hall e' He'); reflexivity.
    + exists [EvPlugin i e], 1; simpl; splits; auto; try lia.
      intros e' He'; discriminate.
    + exists [EvPlugin i e], 1; simpl; splits; auto; try lia.
      intros e' He'; discriminate.
    + exists [EvPlugin i e], 1; simpl; splits; auto; try lia.
      intros e' He'; discriminate.
Qed.

(** ** The fan-out *)

Lemma run_catch_extends (promises : list (string * Fate unit)) :
  forall s : Sys, extends s (Logger.run_catch promises s) [].
Proof.
  induction promises as [|[n [u|err|]] promises IH]; intros s; simpl;
    auto using extends_refl.
  exact (extends_trans _ _ _ _ _
           (extends_console_call (Logger.failure_report n err) s)
           (IH _)).
Qed.

(** [send] is called on the transports in array order, and on nothing
    else. *)
Lemma map_send_extends (ts : list Transport) :
  forall (i : nat) (e : LogEntry) (s : Sys),
  exists d : list Event,
    extends s (fst (fst (Logger.map_send ts i e s))) d /\
    plugin_calls d = [] /\
    created d = [].
Proof.
  induction ts as [|t ts IH]; intros i e s; simpl.
  - exists []; splits; auto using extends_refl.
  - pose proof (extends_trans _ _ _ _ _
                  (extends_observe (EvSend i (name t) e) s)
                  (extends_run_ext (send t e)
                     (observe (EvSend i (name t) e) s))) as Hstep.
    destruct (run_ext (send t e) (observe (EvSend i (name t) e) s))
      as [s1 r].
    simpl in Hstep.
    destruct r as [p|err]; simpl.
    + destruct (IH (S i) e s1) as (d & Hext & Hp & Hc).
      destruct (Logger.map_send ts (S i) e s1) as [[s2 promises] thrown].
      simpl in *.
      exists ([EvSend i (name t) e] ++ d); splits; auto.
      exact (extends_trans _ _ _ _ _ Hstep Hext).
    + exists [EvSend i (name t) e]; splits; auto.
Qed.

(** When no [send] throws, every transport is called, exactly once and on
    the same record, and every returned promise gets its handler. *)
Lemma map_send_returns (ts : list Transport) (e : LogEntry) :
  (forall t, In t ts -> forall w, exists p, snd (send t e w) = Normal p) ->
  forall (i : nat) (s : Sys),
  exists d : list Event,
    extends s (fst (fst (Logger.map_send ts i e s))) d /\
    snd (Logger.map_send ts i e s) = None /\
    send_calls d =
      map (fun jt => (fst jt, name (snd jt), e))
        (combine (seq i (length ts)) ts) /\
    Forall2 (fun t np => fst np = name t /\
                         exists w, snd (send t e w) = Normal (snd np))
      ts (snd (fst (Logger.map_send ts i e s))).
Proof.
  induction ts as [|t ts IH]; intros Hok i s; simpl.
  - exists []; splits; auto using extends_refl.
  - pose proof (extends_trans _ _ _ _ _
                  (extends_observe (EvSend i (name t) e) s)
                  (extends_run_ext (send t e)
                     (observe (EvSend i (name t) e) s))) as Hstep.
    pose proof (run_ext_snd (send t e) (observe (EvSend i (name t) e) s))
      as Hr.
    destruct (run_ext (send t e) (observe (EvSend i (name t) e) s))
      as [s1 r].
    simpl in Hstep, Hr.
    destruct (Hok t (or_introl eq_refl) (ext s)) as (p & Hp).
    rewrite Hp in Hr; subst r.
    destruct (IH (fun t' Hin => Hok t' (or_intror Hin)) (S i) s1)
      as (d & Hext & Hnone & Hs & Hall).
    destruct (Logger.map_send ts (S i) e s1) as [[s2 promises] thrown].
    simpl in *.
    exists ([EvSend i (name t) e] ++ d); splits; auto.
    + exact (extends_trans _ _ _ _ _ Hstep Hext).
    + simpl; rewrite Hs; reflexivity.
    + constructor; auto. split; auto. exists (ext s); exact Hp.
Qed.

Lemma dispatch_extends (entry : LogEntry) (this : Logger) (s : Sys) :
  exists d : list Event,
    extends s (fst (Logger.dispatch entry this s)) d /\
    plugin_calls d = [] /\
    created d = [].
Proof.
  unfold Logger.dispatch.
  destruct (map_send_extends (transports (config this)) 0 entry s)
    as (d & Hext & Hp & Hc).
  destruct (Logger.map_send (transports (config this)) 0 entry s)
    as [[s1 promises] thrown].
  simpl in Hext.
  exists d; splits; auto.
  pose proof (extends_trans _ _ _ _ _ Hext (run_catch_extends promises s1))
    as Hall.
  rewrite app_nil_r in Hall.
  destruct thrown; exact Hall.
Qed.


(** ** The logging call *)

Lemma invoke_floating (c : Call) (this : Logger) :
  invoke c this = Logger.floating (call_log c this).
Proof. destruct c; reflexivity. Qed.

Lemma events_since_refl (s : Sys) : events_since s s = [].
Proof. unfold events_since; apply skipn_all. Qed.

(** A call that stops at the stage of position [length pre], because the
    stage drops the record, fails, or never answers. *)
Lemma log_stops_at_stage (c : Call) (this : Logger) (s : Sys)
    (pre : list Plugin) (p : Plugin) (post : list Plugin)
    (e1 : LogEntry) (s1 : Sys) :
  reaches_stage c this s pre p post e1 s1 ->
  (forall e2, await_plugin (snd (p e1 (ext s1))) <> Fulfills (Some e2)) ->
  exists (s' : Sys) (d : list Event),
    call_log c this s =
      (s', match await_plugin (snd (p e1 (ext s1))) with
           | Rejects err => Rejects err
           | Hangs => Hangs
           | Fulfills _ => Fulfills tt
           end) /\
    extends s s' d /\
    plugin_calls d = seq 0 (S (length pre)) /\
    send_calls d = [] /\
    created d = [call_entry c s].
Proof.
  intros (Hlvl & Hps & Hpre) Hstop.
  unfold call_log, Logger.log.
  apply Z.ltb_ge in Hlvl; rewrite Hlvl.
  fold (call_entry c s).
  rewrite Hps, run_plugins_app, Hpre.
  cbn [Logger.run_plugins Nat.add].
  destruct (run_plugins_extends pre 0 (call_entry c s)
              (observe (EvCreateLogEntry (call_entry c s)) s))
    as (d & n & Hext & Hp & Hs & Hc & _ & Hall).
  rewrite Hpre in Hext, Hall; simpl in Hext, Hall.
  rewrite (Hall e1 eq_refl) in Hp.
  pose proof (extends_trans _ _ _ _ _
                (extends_observe (EvPlugin (length pre) e1) s1)
                (extends_run_ext (p e1)
                   (observe (EvPlugin (length pre) e1) s1))) as Hstep.
  pose proof (run_ext_snd (p e1) (observe (EvPlugin (length pre) e1) s1))
    as Hr.
  destruct (run_ext (p e1) (observe (EvPlugin (length pre) e1) s1))
    as [s' r].
  simpl in Hstep, Hr; rewrite <- Hr in *.
  exists s', ([EvCreateLogEntry (call_entry c s)] ++ d
              ++ [EvPlugin (length pre) e1] ++ []).
  splits.
  - destruct (await_plugin r) as [[e2|]|err|]; auto.
    exfalso; exact (Hstop e2 eq_refl).
  - exact (extends_trans _ _ _ _ _
             (extends_observe (EvCreateLogEntry (call_entry c s)) s)
             (extends_trans _ _ _ _ _ Hext Hstep)).
  - rewrite seq_S; simpl.
    rewrite plugin_calls_app, Hp; reflexivity.
  - simpl; rewrite send_calls_app, Hs; reflexivity.
  - simpl; rewrite created_app, Hc; reflexivity.
Qed.

Lemma invoke_cases (c : Call) (this : Logger) (s : Sys) :
  invoke c this s =
  (match snd (call_log c this s) with
   | Rejects e => unhandled_rejection e (fst (call_log c this s))
   | _ => fst (call_log c this s)
   end, Normal Undefined).
Proof.
  rewrite invoke_floating; unfold Logger.floating.
  destruct (call_log c this s) as [s1 [u|e|]]; reflexivity.
Qed.

Lemma invoke_events (c : Call) (this : Logger) (s : Sys) :
  events_since s (fst (invoke c this s)) =
  events_since s (fst (call_log c this s)).
Proof.
  rewrite invoke_cases; simpl.
  destruct (snd (call_log c this s)); reflexivity.
Qed.

Lemma invoke_console (c : Call) (this : Logger) (s : Sys) :
  console (fst (invoke c this s)) = console (fst (call_log c this s)).
Proof.
  rewrite invoke_cases; simpl.
  destruct (snd (call_log c this s)); reflexivity.
Qed.

Lemma invoke_console_since (c : Call) (this : Logger) (s : Sys) :
  console_since s (fst (invoke c this s)) =
  console_since s (fst (call_log c this s)).
Proof. unfold console_since; rewrite invoke_console; reflexivity. Qed.

(** Whatever happens, a call extends the trace by at most one record
    construction, stage invocations in registration order, and [send]s. *)
Lemma call_log_extends (c : Call) (this : Logger) (s : Sys) :
  exists (d : list Event) (n : nat),
    extends s (fst (call_log c this s)) d /\
    plugin_calls d = seq 0 n /\
    n <= length (plugins (config this)).
Proof.
  unfold call_log, Logger.log.
  destruct (level_value (call_level c) <?
            level_value (minLevel (config this)))%Z.
  - exists [], 0; splits; auto using extends_refl. lia.
  - fold (call_entry c s).
    destruct (run_plugins_extends (plugins (config this)) 0 (call_entry c s)
                (observe (EvCreateLogEntry (call_entry c s)) s))
      as (d & n & Hext & Hp & _ & _ & Hn & _).
    pose proof (extends_trans _ _ _ _ _
                  (extends_observe (EvCreateLogEntry (call_entry c s)) s)
                  Hext) as Hext'.
    destruct (Logger.run_plugins (plugins (config this)) 0 (call_entry c s)
                (observe (EvCreateLogEntry (call_entry c s)) s))
      as [s2 [e| |err|]]; simpl in Hext';
      try (eexists; exists n; splits; [exact Hext'|exact Hp|exact Hn]).
    destruct (dispatch_extends e this s2) as (d2 & Hext2 & Hp2 & _).
    pose proof (extends_trans _ _ _ _ _ Hext' Hext2) as Hall.
    exists (([EvCreateLogEntry (call_entry c s)] ++ d) ++ d2), n; splits.
    + destruct (Logger.dispatch e this s2) as [s3 [u|err]]; exact Hall.
    + rewrite plugin_calls_app, Hp2, app_nil_r; exact Hp.
    + exact Hn.
Qed.

(** ** Stages, run on their own and run by the logger *)

Lemma plugin_events_app (tr1 tr2 : list Event) :
  plugin_events (tr1 ++ tr2) = plugin_events tr1 ++ plugin_events tr2.
Proof.
  induction tr1 as [|ev tr1 IH]; simpl; auto.
  destruct ev; simpl; rewrite IH; reflexivity.
Qed.

Lemma plugin_calls_events (tr : list Event) :
  plugin_calls tr = map fst (plugin_events tr).
Proof.
  induction tr as [|ev tr IH]; simpl; auto.
  destruct ev; simpl; rewrite IH; reflexivity.
Qed.

Lemma plugin_events_none (tr : list Event) :
  plugin_calls tr = [] -> plugin_events tr = [].
Proof.
  rewrite plugin_calls_events.
  destruct (plugin_events tr); [reflexivity|discriminate].
Qed.

Lemma map_fst_combine {A B : Type} (l1 : list A) :
  forall l2 : list B, length l1 = length l2 -> map fst (combine l1 l2) = l1.
Proof.
  induction l1 as [|a l1 IH]; intros [|b l2] Hlen; simpl in *;
    try discriminate; auto.
  rewrite IH; auto.
Qed.

Lemma combine_snoc {A B : Type} (l1 : list A) (a : A) :
  forall (l2 : list B) (b : B),
    length l1 = length l2 ->
    combine (l1 ++ [a]) (l2 ++ [b]) = combine l1 l2 ++ [(a, b)].
Proof.
  induction l1 as [|x l1 IH]; intros [|y l2] b Hlen; simpl in *;
    try discriminate; auto.
  rewrite IH; auto.
Qed.

Lemma run_ext_ext {A : Type} (f : Ext A) (s : Sys) :
  ext (fst (run_ext f s)) = fst (fst (f (ext s))).
Proof.
  unfold run_ext; destruct (f (ext s)) as [[w out] a]; reflexivity.
Qed.

Lemma run_ext_console {A : Type} (f : Ext A) (s : Sys) :
  console (fst (run_ext f s)) = console s ++ snd (fst (f (ext s))).
Proof.
  unfold run_ext; destruct (f (ext s)) as [[w out] a]; reflexivity.
Qed.

(** [await] of what a stage answered with. *)
Lemma answered_await (r : Completion PluginReturn) (e : LogEntry) :
  answered r = Some e -> await_plugin r = Fulfills (Some e).
Proof.
  destruct r as [[[e0|]|[[e0|]|err|]]|err]; simpl; intros Ha;
    try discriminate; inversion Ha; reflexivity.
Qed.

Lemma answers_await (r : Completion PluginReturn) (v : option LogEntry) :
  answers r v -> await_plugin r = Fulfills v.
Proof. intros [->| ->]; reflexivity. Qed.

(** When the stages all answer with a record, the loop of [log] calls each
    of them, in order, on the answer of its predecessor and in the world
    its predecessor left, whether the answers come directly or through
    promises. *)
Lemma run_plugins_passes (ps : list Plugin) :
  forall (i : nat) (e : LogEntry) (s : Sys)
         (ins : list LogEntry) (e' : LogEntry) (w' : World),
    stages_pass ps e (ext s) = Some (ins, e', w') ->
    exists (s' : Sys) (d : list Event),
      Logger.run_plugins ps i e s = (s', Logger.Survived e') /\
      extends s s' d /\
      ext s' = w' /\
      plugin_events d = combine (seq i (length ps)) ins /\
      length ins = length ps /\
      send_calls d = [] /\
      created d = [].
Proof.
  induction ps as [|p ps IH]; intros i e s ins e' w' Hpass.
  - simpl in Hpass; inversion Hpass; subst.
    exists s, []; splits; auto using extends_refl.
  - simpl in Hpass.
    cbn [Logger.run_plugins].
    pose proof (extends_trans _ _ _ _ _ (extends_observe (EvPlugin i e) s)
                  (extends_run_ext (p e) (observe (EvPlugin i e) s))) as Hstep.
    pose proof (run_ext_snd (p e) (observe (EvPlugin i e) s)) as Hr.
    pose proof (run_ext_ext (p e) (observe (EvPlugin i e) s)) as Hw.
    destruct (run_ext (p e) (observe (EvPlugin i e) s)) as [s1 r].
    simpl in Hstep, Hr, Hw.
    destruct (p e (ext s)) as [[w1 out] r0]; simpl in Hr, Hw; subst r.
    destruct (answered r0) as [e1|] eqn:Ha; try discriminate.
    rewrite (answered_await _ _ Ha).
    destruct (stages_pass ps e1 w1) as [[[ins0 e0] w0]|] eqn:Hrest;
      try discriminate.
    inversion Hpass; subst ins e0 w0.
    rewrite <- Hw in Hrest.
    destruct (IH (S i) e1 s1 ins0 e' w' Hrest)
      as (s' & d & Hrun & Hext & Hw' & Hev & Hlen & Hs & Hc).
    exists s', ([EvPlugin i e] ++ d); splits; auto.
    + exact (extends_trans _ _ _ _ _ Hstep Hext).
    + simpl; rewrite Hev; reflexivity.
    + simpl; rewrite Hlen; reflexivity.
Qed.

(** A call whose record passes the stages of [pre] and then stops at the
    next stage, because that stage drops the record, fails, or never
    answers. *)
Lemma log_stops_after_passes (c : Call) (this : Logger) (s : Sys)
    (pre : list Plugin) (p : Plugin) (post : list Plugin)
    (ins : list LogEntry) (e1 : LogEntry) (w1 : World) :
  (level_value (minLevel (config this)) <= level_value (call_level c))%Z ->
  plugins (config this) = pre ++ p :: post ->
  stages_pass pre (call_entry c s) (ext s) = Some (ins, e1, w1) ->
  (forall e2, await_plugin (snd (p e1 w1)) <> Fulfills (Some e2)) ->
  exists (s' : Sys) (d : list Event),
    call_log c this s =
      (s', match await_plugin (snd (p e1 w1)) with
           | Rejects err => Rejects err
           | Hangs => Hangs
           | Fulfills _ => Fulfills tt
           end) /\
    extends s s' d /\
    plugin_events d = combine (seq 0 (S (length pre))) (ins ++ [e1]) /\
    send_calls d = [] /\
    ext s' = fst (fst (p e1 w1)).
Proof.
  intros Hlvl Hps Hpass Hstop.
  destruct (run_plugins_passes pre 0 (call_entry c s)
              (observe (EvCreateLogEntry (call_entry c s)) s) ins e1 w1 Hpass)
    as (s1 & d & Hrun & Hext & Hw & Hev & Hlen & Hs & _).
  unfold call_log, Logger.log.
  apply Z.ltb_ge in Hlvl; rewrite Hlvl.
  fold (call_entry c s).
  rewrite Hps, run_plugins_app, Hrun.
  cbn [Logger.run_plugins Nat.add].
  pose proof (extends_trans _ _ _ _ _
                (extends_observe (EvPlugin (length pre) e1) s1)
                (extends_run_ext (p e1)
                   (observe (EvPlugin (length pre) e1) s1))) as Hstep.
  pose proof (run_ext_snd (p e1) (observe (EvPlugin (length pre) e1) s1))
    as Hr.
  pose proof (run_ext_ext (p e1) (observe (EvPlugin (length pre) e1) s1))
    as Hw1.
  destruct (run_ext (p e1) (observe (EvPlugin (length pre) e1) s1))
    as [s' r].
  simpl in Hstep, Hr, Hw1; rewrite Hw in Hr, Hw1; rewrite <- Hr in *.
  exists s', ([EvCreateLogEntry (call_entry c s)] ++ d
              ++ [EvPlugin (length pre) e1] ++ []).
  splits.
  - destruct (await_plugin r) as [[e2|]|err|]; auto.
    exfalso; exact (Hstop e2 eq_refl).
  - exact (extends_trans _ _ _ _ _
             (extends_observe (EvCreateLogEntry (call_entry c s)) s)
             (extends_trans _ _ _ _ _ Hext Hstep)).
  - rewrite seq_S, combine_snoc by (rewrite length_seq; auto).
    simpl; rewrite plugin_events_app, Hev; reflexivity.
  - simpl; rewrite send_calls_app, Hs; reflexivity.
  - exact Hw1.
Qed.

(** A call whose record passes every stage: the stages are called as
    [stages_pass] says, and the fan-out starts from the last answer. *)
Lemma log_passes_the_chain (c : Call) (this : Logger) (s : Sys)
    (ins : list LogEntry) (e' : LogEntry) (w' : World) :
  (level_value (minLevel (config this)) <= level_value (call_level c))%Z ->
  stages_pass (plugins (config this)) (call_entry c s) (ext s) =
    Some (ins, e', w') ->
  exists s2 : Sys,
    survives_chain c this s e' s2 /\
    ext s2 = w' /\
    plugin_events (events_since s (fst (call_log c this s))) =
      combine (seq 0 (length (plugins (config this)))) ins.
Proof.
  intros Hlvl Hpass.
  destruct (run_plugins_passes (plugins (config this)) 0 (call_entry c s)
              (observe (EvCreateLogEntry (call_entry c s)) s) ins e' w' Hpass)
    as (s2 & d & Hrun & Hext & Hw & Hev & _).
  exists s2; splits; auto.
  - split; assumption.
  - pose proof (extends_trans _ _ _ _ _
                  (extends_observe (EvCreateLogEntry (call_entry c s)) s)
                  Hext) as Hext1.
    destruct (dispatch_extends e' this s2) as (d2 & Hext2 & Hp2 & _).
    pose proof (extends_trans _ _ _ _ _ Hext1 Hext2) as Hall.
    unfold call_log, Logger.log.
    apply Z.ltb_ge in Hlvl; rewrite Hlvl.
    fold (call_entry c s); rewrite Hrun.
    assert (Hfst : fst (match Logger.dispatch e' this s2 with
                        | (s3, Normal _) => (s3, Fulfills tt)
                        | (s3, Throw e) => (s3, Rejects e)
                        end) = fst (Logger.dispatch e' this s2)).
    { destruct (Logger.dispatch e' this s2) as [s3 [u|err]]; reflexivity. }
    rewrite Hfst, (extends_events _ _ _ Hall).
    rewrite !plugin_events_app, (plugin_events_none _ Hp2), app_nil_r.
    simpl; exact Hev.
Qed.

(** ** The logging call: threshold, stage chain, stage errors *)

(** C3.  A call whose severity is strictly below [minLevel] returns at
    once: the promise of [log] is fulfilled and the system state is the one
    the call started in, so the record factory was not invoked, no stage
    ran and no backend was invoked; the public method returns normally. *)
Theorem C3_below_threshold_nothing_happens
    (level : LogLevel) (message : string) (error : option JsError)
    (context : option JsRecord) (this : Logger) (s : Sys) :
  (level_value level < level_value (minLevel (config this)))%Z ->
  Logger.log level message error context this s = (s, Fulfills tt) /\
  forall c : Call,
    call_level c = level ->
    invoke c this s = (s, Normal Undefined) /\
    created (events_since s (fst (invoke c this s))) = [] /\
    plugin_calls (events_since s (fst (invoke c this s))) = [] /\
    send_calls (events_since s (fst (invoke c this s))) = [].
Proof.
  intros Hlt.
  assert (Hlog : forall m e x,
             Logger.log level m e x this s = (s, Fulfills tt)).
  { intros m e x; unfold Logger.log.
    apply Z.ltb_lt in Hlt; rewrite Hlt; reflexivity. }
  split; [apply Hlog|].
  intros c Hc.
  assert (Hinv : invoke c this s = (s, Normal Undefined)).
  { rewrite invoke_cases; unfold call_log; rewrite Hc, Hlog; reflexivity. }
  rewrite Hinv; simpl; rewrite events_since_refl; auto.
Qed.

(** C2.  Stages run in registration order, each awaited to full resolution
    before the next begins.  The positions of the stages a call invokes
    are 0, 1, ..., n-1 for some n.  When every stage answers with a
    record, directly or as the value of its promise ([stages_pass]), the
    stage of position k is invoked exactly once, on the answer of the stage
    of position k-1 and in the world that stage left behind, and the record
    that survives the chain is the answer of the last stage.  When the
    stages of [pre] answer with records and the stage of position
    k = [length pre] answers with the drop signal [null], directly or as
    the value of its promise, the stages invoked are exactly those of
    positions 0..k, each on the answer of its predecessor, no backend is
    invoked, the world is the one the dropping stage left, the promise of
    [log] is fulfilled, and the public method returns normally with no
    rejection left unhandled. *)
Theorem C2_stage_order_and_drop (c : Call) (this : Logger) (s : Sys) :
  (exists n : nat,
      n <= length (plugins (config this)) /\
      plugin_calls (events_since s (fst (invoke c this s))) = seq 0 n) /\
  (forall (ins : list LogEntry) (e' : LogEntry) (w' : World),
      (level_value (minLevel (config this)) <= level_value (call_level c))%Z ->
      stages_pass (plugins (config this)) (call_entry c s) (ext s) =
        Some (ins, e', w') ->
      plugin_events (events_since s (fst (invoke c this s))) =
        combine (seq 0 (length (plugins (config this)))) ins /\
      exists s2 : Sys, survives_chain c this s e' s2 /\ ext s2 = w') /\
  (forall (pre : list Plugin) (p : Plugin) (post : list Plugin)
          (ins : list LogEntry) (e1 : LogEntry) (w1 : World),
      (level_value (minLevel (config this)) <= level_value (call_level c))%Z ->
      plugins (config this) = pre ++ p :: post ->
      stages_pass pre (call_entry c s) (ext s) = Some (ins, e1, w1) ->
      answers (snd (p e1 w1)) None ->
      plugin_events (events_since s (fst (invoke c this s))) =
        combine (seq 0 (S (length pre))) (ins ++ [e1]) /\
      plugin_calls (events_since s (fst (invoke c this s))) =
        seq 0 (S (length pre)) /\
      send_calls (events_since s (fst (invoke c this s))) = [] /\
      ext (fst (invoke c this s)) = fst (fst (p e1 w1)) /\
      snd (call_log c this s) = Fulfills tt /\
      snd (invoke c this s) = Normal Undefined /\
      unhandled (fst (invoke c this s)) = unhandled s).
Proof.
  splits.
  - destruct (call_log_extends c this s) as (d & n & Hext & Hp & Hn).
    exists n; split; auto.
    rewrite invoke_events, (extends_events _ _ _ Hext); exact Hp.
  - intros ins e' w' Hlvl Hpass.
    destruct (log_passes_the_chain c this s ins e' w' Hlvl Hpass)
      as (s2 & Hsurv & Hw & Hev).
    rewrite invoke_events; split; [exact Hev|].
    exists s2; split; assumption.
  - intros pre p post ins e1 w1 Hlvl Hps Hpass Hdrop.
    apply answers_await in Hdrop.
    destruct (log_stops_after_passes c this s pre p post ins e1 w1
                Hlvl Hps Hpass)
      as (s' & d & Hlog & Hext & Hev & Hs & Hw).
    { intros e2; rewrite Hdrop; discriminate. }
    rewrite Hdrop in Hlog.
    assert (Hlen : length ins = length pre).
    { destruct (run_plugins_passes pre 0 (call_entry c s)
                  (observe (EvCreateLogEntry (call_entry c s)) s)
                  ins e1 w1 Hpass) as (_ & _ & _ & _ & _ & _ & Hl & _).
      exact Hl. }
    rewrite invoke_events, invoke_cases, Hlog; simpl.
    rewrite (extends_events _ _ _ Hext); splits; auto.
    + rewrite plugin_calls_events, Hev.
      apply map_fst_combine.
      rewrite length_app, Hlen; simpl; rewrite length_seq; lia.
    + destruct Hext as (_ & _ & Hu & _); exact Hu.
Qed.

(** C4, as the code has it.  If the stage of position k = [length pre]
    throws, or its promise rejects, with [err], then the promise of [log]
    rejects with [err], no later stage runs and no backend is invoked.  The
    public method has dropped that promise: it returns [undefined]
    normally, [err] does not reach its caller, and the rejection is left
    unhandled. *)
Theorem C4_stage_error_rejects_log_and_aborts_dispatch
    (c : Call) (this : Logger) (s : Sys)
    (pre : list Plugin) (p : Plugin) (post : list Plugin)
    (e1 : LogEntry) (s1 : Sys) (err : JsError) :
  reaches_stage c this s pre p post e1 s1 ->
  await_plugin (snd (p e1 (ext s1))) = Rejects err ->
  snd (call_log c this s) = Rejects err /\
  plugin_calls (events_since s (fst (invoke c this s))) =
    seq 0 (S (length pre)) /\
  send_calls (events_since s (fst (invoke c this s))) = [] /\
  snd (invoke c this s) = Normal Undefined /\
  ~ propagates_to_caller (snd (invoke c this s)) err /\
  unhandled (fst (invoke c this s)) = unhandled s ++ [err].
Proof.
  intros Hreach Hrej.
  destruct (log_stops_at_stage c this s pre p post e1 s1 Hreach)
    as (s' & d & Hlog & Hext & Hp & Hs & _).
  { intros e2; rewrite Hrej; discriminate. }
  rewrite Hrej in Hlog.
  rewrite invoke_events, invoke_cases, Hlog; simpl.
  rewrite (extends_events _ _ _ Hext); splits; auto.
  - intros [Habs|Habs]; discriminate.
  - destruct Hext as (_ & _ & Hu & _); rewrite Hu; reflexivity.
Qed.

(** ** The fan-out: isolation of failures *)


(** The fan-out run by the logger is the fan-out run on its own: when no
    [send] throws, every backend is called once, in array order and in the
    world its predecessors left, the [catch] handlers are attached to the
    promises the calls returned, and the console holds what the calls
    printed. *)
Lemma map_send_run (ts : list Transport) (e : LogEntry) :
  forall (i : nat) (s : Sys),
    Forall returns_promise (fanout_run ts e (ext s)) ->
    exists d : list Event,
      extends s (fst (fst (Logger.map_send ts i e s))) d /\
      snd (Logger.map_send ts i e s) = None /\
      send_calls d =
        map (fun jt => (fst jt, name (snd jt), e))
          (combine (seq i (length ts)) ts) /\
      Forall2 (fun x np => fst np = name (fst (fst x)) /\
                           snd x = Normal (snd np))
        (fanout_run ts e (ext s)) (snd (fst (Logger.map_send ts i e s))) /\
      console (fst (fst (Logger.map_send ts i e s))) =
        console s ++ concat (map (fun x => snd (fst x))
                               (fanout_run ts e (ext s))).
Proof.
  induction ts as [|t ts IH]; intros i s Hok.
  - exists []; simpl; splits; auto using extends_refl.
    rewrite app_nil_r; reflexivity.
  - cbn [Logger.map_send fanout_run] in *.
    pose proof (extends_trans _ _ _ _ _
                  (extends_observe (EvSend i (name t) e) s)
                  (extends_run_ext (send t e)
                     (observe (EvSend i (name t) e) s))) as Hstep.
    pose proof (run_ext_snd (send t e) (observe (EvSend i (name t) e) s))
      as Hr.
    pose proof (run_ext_ext (send t e) (observe (EvSend i (name t) e) s))
      as Hw.
    pose proof (run_ext_console (send t e)
                  (observe (EvSend i (name t) e) s)) as Hcon.
    destruct (run_ext (send t e) (observe (EvSend i (name t) e) s))
      as [s1 r].
    simpl in Hstep, Hr, Hw, Hcon.
    destruct (send t e (ext s)) as [[w1 out] r0].
    simpl in Hr, Hw, Hcon; subst r.
    inversion Hok as [|x l [p Hp] Hrest]; subst x l.
    simpl in Hp; subst r0.
    rewrite <- Hw in Hrest |- *.
    destruct (IH (S i) s1 Hrest) as (d & Hext & Hnone & Hs & Hall & Hc).
    destruct (Logger.map_send ts (S i) e s1) as [[s2 promises] thrown].
    simpl in Hext, Hnone, Hall, Hc |- *.
    exists ([EvSend i (name t) e] ++ d); splits.
    + exact (extends_trans _ _ _ _ _ Hstep Hext).
    + exact Hnone.
    + simpl; rewrite Hs; reflexivity.
    + constructor; [split; reflexivity|exact Hall].
    + rewrite Hc, Hcon, <- app_assoc; reflexivity.
Qed.

(** What the [catch] handlers print. *)
Lemma run_catch_prints (promises : list (string * Fate unit)) :
  forall s : Sys,
    console (Logger.run_catch promises s) =
    console s ++
    flat_map (fun np => match snd np with
                        | Rejects err => [Logger.failure_report (fst np) err]
                        | _ => []
                        end) promises.
Proof.
  induction promises as [|[n [u|err|]] promises IH]; intros s; simpl; auto.
  - symmetry; apply app_nil_r.
  - rewrite IH; simpl; rewrite <- app_assoc; reflexivity.
Qed.

(** The reports, read off the calls of [send]: the text names the backend
    whose promise rejected, and the detail is the rejection. *)
Lemma reports_of_fanout
    (runs : list (Transport * list ConsoleCall * Completion (Fate unit)))
    (promises : list (string * Fate unit)) :
  Forall2 (fun x np => fst np = name (fst (fst x)) /\
                       snd x = Normal (snd np)) runs promises ->
  flat_map (fun np => match snd np with
                      | Rejects err => [Logger.failure_report (fst np) err]
                      | _ => []
                      end) promises =
  flat_map (fun x => match snd x with
                     | Normal (Rejects err) =>
                         [mkConsoleCall console_error
                            ("[Logger] Transport " ++ dquote
                             ++ name (fst (fst x)) ++ dquote ++ " failed:")
                            (Some err)]
                     | _ => []
                     end) runs.
Proof.
  induction 1 as [|x np runs promises [Hn Hr] Hall IH]; simpl; auto.
  rewrite Hr, Hn, IH.
  destruct (snd np) as [u|err|]; reflexivity.
Qed.

(** The fan-out of a record that survived the chain, when no [send]
    throws. *)
Lemma log_fans_out (c : Call) (this : Logger) (s : Sys) (e : LogEntry)
    (s2 : Sys) :
  survives_chain c this s e s2 ->
  Forall returns_promise
    (fanout_run (transports (config this)) e (ext s2)) ->
  exists (s' : Sys) (d : list Event),
    call_log c this s = (s', Fulfills tt) /\
    extends s s' d /\
    send_calls d =
      map (fun jt => (fst jt, name (snd jt), e))
        (combine (seq 0 (length (transports (config this))))
           (transports (config this))) /\
    exists o1 : list ConsoleCall,
      console s2 = console s ++ o1 /\
      console s' =
        console s2 ++
        concat (map (fun x => snd (fst x))
                  (fanout_run (transports (config this)) e (ext s2))) ++
        flat_map (fun x => match snd x with
                           | Normal (Rejects err) =>
                               [mkConsoleCall console_error
                                  ("[Logger] Transport " ++ dquote
                                   ++ name (fst (fst x)) ++ dquote
                                   ++ " failed:")
                                  (Some err)]
                           | _ => []
                           end)
          (fanout_run (transports (config this)) e (ext s2)).
Proof.
  intros (Hlvl & Hchain) Hok.
  destruct (run_plugins_extends (plugins (config this)) 0 (call_entry c s)
              (observe (EvCreateLogEntry (call_entry c s)) s))
    as (d1 & n & Hext1 & _ & Hs1 & _).
  rewrite Hchain in Hext1; simpl in Hext1.
  pose proof (extends_trans _ _ _ _ _
                (extends_observe (EvCreateLogEntry (call_entry c s)) s)
                Hext1) as Hext01.
  destruct (map_send_run (transports (config this)) e 0 s2 Hok)
    as (d2 & Hext2 & Hnone & Hs2 & Hall & Hc).
  unfold call_log, Logger.log.
  apply Z.ltb_ge in Hlvl; rewrite Hlvl.
  fold (call_entry c s); rewrite Hchain.
  unfold Logger.dispatch.
  destruct (Logger.map_send (transports (config this)) 0 e s2)
    as [[s3 promises] thrown].
  simpl in Hext2, Hnone, Hall, Hc; subst thrown.
  exists (Logger.run_catch promises s3),
         (([EvCreateLogEntry (call_entry c s)] ++ d1) ++ d2).
  splits.
  - reflexivity.
  - pose proof (extends_trans _ _ _ _ _ Hext2
                  (run_catch_extends promises s3)) as Hx.
    rewrite app_nil_r in Hx.
    exact (extends_trans _ _ _ _ _ Hext01 Hx).
  - rewrite !send_calls_app, Hs1; simpl; exact Hs2.
  - destruct Hext01 as (_ & _ & _ & _ & o1 & Ho1).
    exists o1; split; [exact Ho1|].
    rewrite run_catch_prints, Hc, (reports_of_fanout _ _ Hall), <- app_assoc.
    reflexivity.
Qed.


(** A [send] that throws instead of returning a promise ends the [map]:
    the transports after it are never called. *)
Lemma map_send_throws (ts1 : list Transport) (t : Transport)
    (ts2 : list Transport) (e : LogEntry) (err : JsError) :
  (forall t', In t' ts1 -> forall w, exists p, snd (send t' e w) = Normal p) ->
  (forall w, snd (send t e w) = Throw err) ->
  forall (i : nat) (s : Sys),
  exists d : list Event,
    extends s (fst (fst (Logger.map_send (ts1 ++ t :: ts2) i e s))) d /\
    snd (Logger.map_send (ts1 ++ t :: ts2) i e s) = Some err /\
    send_calls d =
      map (fun jt => (fst jt, name (snd jt), e))
        (combine (seq i (S (length ts1))) (ts1 ++ [t])).
Proof.
  intros Hok Hthrow.
  induction ts1 as [|t1 ts1 IH]; intros i s.
  - simpl.
    pose proof (extends_trans _ _ _ _ _
                  (extends_observe (EvSend i (name t) e) s)
                  (extends_run_ext (send t e)
                     (observe (EvSend i (name t) e) s))) as Hstep.
    pose proof (run_ext_snd (send t e) (observe (EvSend i (name t) e) s))
      as Hr.
    destruct (run_ext (send t e) (observe (EvSend i (name t) e) s))
      as [s1 r].
    simpl in Hstep, Hr; rewrite Hthrow in Hr; subst r; simpl.
    exists [EvSend i (name t) e]; splits; auto.
  - cbn [app Logger.map_send length].
    pose proof (extends_trans _ _ _ _ _
                  (extends_observe (EvSend i (name t1) e) s)
                  (extends_run_ext (send t1 e)
                     (observe (EvSend i (name t1) e) s))) as Hstep.
    pose proof (run_ext_snd (send t1 e) (observe (EvSend i (name t1) e) s))
      as Hr.
    destruct (run_ext (send t1 e) (observe (EvSend i (name t1) e) s))
      as [s1 r].
    simpl in Hstep, Hr.
    destruct (Hok t1 (or_introl eq_refl) (ext s)) as (p & Hp).
    rewrite Hp in Hr; subst r.
    destruct (IH (fun t' Hin => Hok t' (or_intror Hin)) (S i) s1)
      as (d & Hext & Hsome & Hs).
    destruct (Logger.map_send (ts1 ++ t :: ts2) (S i) e s1)
      as [[s2 promises] thrown].
    simpl in Hext, Hsome |- *.
    exists ([EvSend i (name t1) e] ++ d); splits; auto.
    + exact (extends_trans _ _ _ _ _ Hstep Hext).
    + simpl; rewrite Hs; reflexivity.
Qed.

(** X8.  The fan-out does not contain a [send] that throws instead of
    returning a promise: when the record survives the chain as [e], the
    backends before the throwing one return promises, and the backend
    after them throws [err], then [send] is invoked on those backends and on
    the throwing one, in array order, and on no backend registered after
    it; the promise of [log] rejects with [err], which nobody handles,
    while the public method returns normally. *)
Lemma fanout_stops_at_throwing_backend
    (c : Call) (this : Logger) (s : Sys) (e : LogEntry) (s2 : Sys)
    (ts1 : list Transport) (t : Transport) (ts2 : list Transport)
    (err : JsError) :
  survives_chain c this s e s2 ->
  transports (config this) = ts1 ++ t :: ts2 ->
  (forall t', In t' ts1 -> forall w, exists p, snd (send t' e w) = Normal p) ->
  (forall w, snd (send t e w) = Throw err) ->
  send_calls (events_since s (fst (invoke c this s))) =
    map (fun jt => (fst jt, name (snd jt), e))
      (combine (seq 0 (S (length ts1))) (ts1 ++ [t])) /\
  snd (call_log c this s) = Rejects err /\
  snd (invoke c this s) = Normal Undefined /\
  unhandled (fst (invoke c this s)) = unhandled s ++ [err].
Proof.
  intros (Hlvl & Hchain) Hts Hok Hthrow.
  destruct (run_plugins_extends (plugins (config this)) 0 (call_entry c s)
              (observe (EvCreateLogEntry (call_entry c s)) s))
    as (d1 & n & Hext1 & _ & Hs1 & _).
  rewrite Hchain in Hext1; simpl in Hext1.
  pose proof (extends_trans _ _ _ _ _
                (extends_observe (EvCreateLogEntry (call_entry c s)) s)
                Hext1) as Hext01.
  destruct (map_send_throws ts1 t ts2 e err Hok Hthrow 0 s2)
    as (d2 & Hext2 & Hsome & Hs2).
  assert (Hlog : exists s', call_log c this s = (s', Rejects err) /\
                            extends s2 s' d2).
  { unfold call_log, Logger.log, Logger.dispatch.
    apply Z.ltb_ge in Hlvl; rewrite Hlvl.
    fold (call_entry c s); rewrite Hchain, Hts.
    destruct (Logger.map_send (ts1 ++ t :: ts2) 0 e s2)
      as [[s3 promises] thrown].
    simpl in Hext2, Hsome; subst thrown.
    exists (Logger.run_catch promises s3); split; auto.
    pose proof (extends_trans _ _ _ _ _ Hext2
                  (run_catch_extends promises s3)) as Hx.
    rewrite app_nil_r in Hx; exact Hx. }
  destruct Hlog as (s' & Hlog & Hext2').
  pose proof (extends_trans _ _ _ _ _ Hext01 Hext2') as Hext.
  rewrite invoke_events, invoke_cases, Hlog; simpl.
  rewrite (extends_events _ _ _ Hext); splits; auto.
  - rewrite !send_calls_app, Hs1, Hs2; reflexivity.
  - destruct Hext as (_ & _ & Hu & _); rewrite Hu; reflexivity.
Qed.

(** ** The backend collection *)

(** C6.  On the active logger, [addTransport] with the name of a
    registered backend throws the "already registered" error synchronously
    and leaves the whole system, hence the collection with the position and
    identity of every backend, as it was; with a fresh name it appends the
    backend at the end of the collection and changes nothing else. *)
Theorem C6_addTransport_rejects_duplicates_and_appends
    (transport : Transport) (this : Logger) (s : Sys) :
  instance s = Some this ->
  ((exists t, In t (transports (config this)) /\
              name t = name transport) ->
   Logger.addTransport transport this =
     Throw (Logger.already_registered (name transport)) /\
   step (OpAddTransport transport) s =
     (s, Throw (Logger.already_registered (name transport)))) /\
  ((forall t, In t (transports (config this)) ->
              name t <> name transport) ->
   exists this' : Logger,
     Logger.addTransport transport this = Normal this' /\
     transports (config this') = transports (config this) ++ [transport] /\
     oid this' = oid this /\
     minLevel (config this') = minLevel (config this) /\
     plugins (config this') = plugins (config this) /\
     generateId (config this') = generateId (config this) /\
     step (OpAddTransport transport) s =
       (set_instance (Some this') s, Normal AnsUndefined)).
Proof.
  intros Hinst; split.
  - intros (t & Hin & Hname).
    assert (Hdup : Logger.addTransport transport this =
                   Throw (Logger.already_registered (name transport))).
    { unfold Logger.addTransport.
      replace (existsb (fun t0 => String.eqb (name t0) (name transport))
                 (transports (config this))) with true; auto.
      symmetry; apply existsb_exists; exists t; split; auto.
      apply String.eqb_eq; exact Hname. }
    split; auto.
    unfold step, Logger.getInstance; rewrite Hinst, Hdup; reflexivity.
  - intros Hfresh.
    assert (Hno : existsb (fun t0 => String.eqb (name t0) (name transport))
                    (transports (config this)) = false).
    { destruct (existsb (fun t0 => String.eqb (name t0) (name transport))
                  (transports (config this))) eqn:Hex; auto.
      apply existsb_exists in Hex; destruct Hex as (t & Hin & Heq).
      apply String.eqb_eq in Heq; destruct (Hfresh t Hin Heq). }
    eexists; splits.
    + unfold Logger.addTransport; rewrite Hno; reflexivity.
    + reflexivity.
    + reflexivity.
    + reflexivity.
    + reflexivity.
    + reflexivity.
    + unfold step, Logger.getInstance, Logger.addTransport.
      rewrite Hinst, Hno; reflexivity.
Qed.

(** ** The lifecycle guard *)

Lemma invoke_frame (c : Call) (this : Logger) (s : Sys) :
  instance (fst (invoke c this s)) = instance s /\
  allocated (fst (invoke c this s)) = allocated s.
Proof.
  rewrite invoke_cases; simpl.
  destruct (call_log_extends c this s) as (d & n & (Hi & Ha & _) & _).
  destruct (snd (call_log c this s)); simpl; auto.
Qed.

Lemma invoke_returns (c : Call) (this : Logger) (s : Sys) :
  snd (invoke c this s) = Normal Undefined.
Proof. rewrite invoke_cases; reflexivity. Qed.

(** Only [reset] deactivates: any other operation leaves the same object
    in the slot. *)
Lemma step_keeps_active (op : Op) (s : Sys) (l : Logger) :
  is_reset op = false ->
  instance s = Some l ->
  exists l', instance (fst (step op s)) = Some l' /\ oid l' = oid l.
Proof.
  intros Hop Hinst.
  destruct op; try discriminate; unfold step, Logger.init, Logger.getInstance;
    rewrite Hinst; simpl; eauto.
  - destruct (invoke_frame c l s) as (Hi & _).
    pose proof (invoke_returns c l s) as Hr.
    destruct (invoke c l s) as [s2 r]; simpl in *; subst r.
    simpl; rewrite Hi; eauto.
  - destruct (Logger.addTransport transport l) as [l'|e] eqn:Hadd; simpl; eauto.
    unfold Logger.addTransport in Hadd.
    destruct (existsb _ _); inversion Hadd; subst; eauto.
Qed.

Lemma run_keeps_active (ops : list Op) :
  forall (s : Sys) (l : Logger),
    forallb (fun op => negb (is_reset op)) ops = true ->
    instance s = Some l ->
    exists l', instance (fst (run ops s)) = Some l' /\ oid l' = oid l.
Proof.
  induction ops as [|op ops IH]; intros s l Hops Hinst; simpl in *; eauto.
  apply andb_true_iff in Hops; destruct Hops as (Hop & Hops).
  apply negb_true_iff in Hop.
  destruct (step_keeps_active op s l Hop Hinst) as (l1 & Hi1 & Ho1).
  destruct (step op s) as [s1 a]; simpl in Hi1.
  destruct (IH s1 l1 Hops Hi1) as (l2 & Hi2 & Ho2).
  destruct (run ops s1) as [s2 answers]; simpl in *.
  exists l2; split; congruence.
Qed.

(** Only [init] activates. *)
Lemma step_keeps_uninitialized (op : Op) (s : Sys) :
  is_init op = false ->
  instance s = None ->
  instance (fst (step op s)) = None.
Proof.
  intros Hop Hinst.
  destruct op; try discriminate; unfold step, Logger.getInstance;
    try rewrite Hinst; simpl; auto.
Qed.

Lemma run_keeps_uninitialized (ops : list Op) :
  forall s : Sys,
    forallb (fun op => negb (is_init op)) ops = true ->
    instance s = None ->
    instance (fst (run ops s)) = None.
Proof.
  induction ops as [|op ops IH]; intros s Hops Hinst; simpl in *; auto.
  apply andb_true_iff in Hops; destruct Hops as (Hop & Hops).
  apply negb_true_iff in Hop.
  pose proof (step_keeps_uninitialized op s Hop Hinst) as H1.
  destruct (step op s) as [s1 a]; simpl in H1.
  pose proof (IH s1 Hops H1) as H2.
  destruct (run ops s1) as [s2 answers]; exact H2.
Qed.

(** The three configuration errors can be told apart. *)
Lemma configuration_errors_distinct (n : string) :
  Logger.already_initialized <> Logger.not_initialized /\
  Logger.already_initialized <> Logger.already_registered n /\
  Logger.not_initialized <> Logger.already_registered n.
Proof.
  unfold Logger.already_initialized, Logger.not_initialized,
    Logger.already_registered.
  repeat split; intros Heq; inversion Heq.
Qed.

(** C7.  After a successful [init], and whatever the client does next
    short of [reset], a second [init] throws the "already initialized"
    error and returns the system in the state it found: the object created
    by the first [init] is still the active instance, and its configuration
    is what it was before the failed call. *)
Theorem C7_second_init_fails_and_changes_nothing
    (config1 config2 : LoggerConfig.t) (s s1 : Sys) (first : Logger)
    (ops : list Op) :
  Logger.init config1 s = (s1, Normal first) ->
  forallb (fun op => negb (is_reset op)) ops = true ->
  Logger.init config2 (fst (run ops s1)) =
    (fst (run ops s1), Throw Logger.already_initialized) /\
  (exists l, instance (fst (run ops s1)) = Some l /\ oid l = oid first) /\
  instance s1 = Some first /\
  config first = Logger.resolveConfig config1.
Proof.
  intros Hinit Hops.
  assert (Hfirst : instance s1 = Some first /\
                   config first = Logger.resolveConfig config1).
  { unfold Logger.init in Hinit.
    destruct (instance s); inversion Hinit; subst; auto. }
  destruct Hfirst as (Hi & Hc).
  destruct (run_keeps_active ops s1 first Hops Hi) as (l & Hl & Ho).
  splits; eauto.
  unfold Logger.init; rewrite Hl; reflexivity.
Qed.

(** C8.  In a state with no active instance, [getInstance] throws the
    "not initialized" error and [reset] changes nothing.  After [reset]
    from any state, and whatever the client does next short of [init],
    [getInstance] still throws; the next [init] then succeeds, and
    [getInstance] returns the very object that this [init] created. *)
Theorem C8_lifecycle_state_machine (s : Sys) :
  (instance s = None ->
   Logger.getInstance s = (s, Throw Logger.not_initialized) /\
   Logger.reset s = (s, Normal tt)) /\
  (forall ops : list Op,
     forallb (fun op => negb (is_init op)) ops = true ->
     Logger.getInstance (fst (run ops (fst (Logger.reset s)))) =
       (fst (run ops (fst (Logger.reset s))),
        Throw Logger.not_initialized) /\
     forall config : LoggerConfig.t,
     exists (s2 : Sys) (l : Logger),
       Logger.init config (fst (run ops (fst (Logger.reset s)))) =
         (s2, Normal l) /\
       l = Logger.new (allocated (fst (run ops (fst (Logger.reset s)))))
             config /\
       Logger.getInstance s2 = (s2, Normal l)).
Proof.
  split.
  - intros Hnone; unfold Logger.getInstance, Logger.reset, set_instance.
    rewrite Hnone; split; auto.
    destruct s; simpl in *; subst; reflexivity.
  - intros ops Hops.
    pose proof (run_keeps_uninitialized ops (fst (Logger.reset s)) Hops
                  eq_refl) as Hnone.
    split.
    + unfold Logger.getInstance; rewrite Hnone; reflexivity.
    + intros config; unfold Logger.init; rewrite Hnone.
      eexists; eexists; splits; reflexivity.
Qed.

(** ** The id generator does not interfere *)

(** The logging path never looks at the singleton slot... *)
Lemma run_ext_set_instance {A : Type} (f : Ext A) (i : option Logger)
    (s : Sys) :
  run_ext f (set_instance i s) =
  (set_instance i (fst (run_ext f s)), snd (run_ext f s)).
Proof.
  unfold run_ext, set_instance; simpl.
  destruct (f (ext s)) as [[w out] a]; reflexivity.
Qed.

Lemma run_plugins_set_instance (ps : list Plugin) (i : option Logger) :
  forall (k : nat) (e : LogEntry) (s : Sys),
    Logger.run_plugins ps k e (set_instance i s) =
    (set_instance i (fst (Logger.run_plugins ps k e s)),
     snd (Logger.run_plugins ps k e s)).
Proof.
  induction ps as [|p ps IH]; intros k e s; simpl; auto.
  change (observe (EvPlugin k e) (set_instance i s))
    with (set_instance i (observe (EvPlugin k e) s)).
  rewrite run_ext_set_instance.
  destruct (run_ext (p e) (observe (EvPlugin k e) s)) as [s1 r]; simpl.
  destruct (await_plugin r) as [[e1|]|err|]; auto.
Qed.

Lemma map_send_set_instance (ts : list Transport) (i : option Logger) :
  forall (k : nat) (e : LogEntry) (s : Sys),
    Logger.map_send ts k e (set_instance i s) =
    (set_instance i (fst (fst (Logger.map_send ts k e s))),
     snd (fst (Logger.map_send ts k e s)),
     snd (Logger.map_send ts k e s)).
Proof.
  induction ts as [|t ts IH]; intros k e s; simpl; auto.
  change (observe (EvSend k (name t) e) (set_instance i s))
    with (set_instance i (observe (EvSend k (name t) e) s)).
  rewrite run_ext_set_instance.
  destruct (run_ext (send t e) (observe (EvSend k (name t) e) s))
    as [s1 r]; simpl.
  destruct r as [p|err]; auto.
  rewrite IH.
  destruct (Logger.map_send ts (S k) e s1) as [[s2 promises] thrown];
    reflexivity.
Qed.

Lemma run_catch_set_instance (promises : list (string * Fate unit))
    (i : option Logger) :
  forall s : Sys,
    Logger.run_catch promises (set_instance i s) =
    set_instance i (Logger.run_catch promises s).
Proof.
  induction promises as [|[n [u|err|]] promises IH]; intros s; simpl; auto.
  rewrite <- IH; reflexivity.
Qed.

Lemma log_set_instance (level : LogLevel) (message : string)
    (error : option JsError) (context : option JsRecord) (this : Logger)
    (i : option Logger) (s : Sys) :
  Logger.log level message error context this (set_instance i s) =
  (set_instance i (fst (Logger.log level message error context this s)),
   snd (Logger.log level message error context this s)).
Proof.
  unfold Logger.log.
  destruct (level_value level <? level_value (minLevel (config this)))%Z;
    auto.
  change (ext (set_instance i s)) with (ext s).
  set (entry := createLogEntry level message error context (ext s)).
  change (observe (EvCreateLogEntry entry) (set_instance i s))
    with (set_instance i (observe (EvCreateLogEntry entry) s)).
  rewrite run_plugins_set_instance.
  destruct (Logger.run_plugins (plugins (config this)) 0 entry
              (observe (EvCreateLogEntry entry) s)) as [s2 [e| |err|]];
    simpl; auto.
  unfold Logger.dispatch.
  rewrite map_send_set_instance.
  destruct (Logger.map_send (transports (config this)) 0 e s2)
    as [[s3 promises] thrown]; simpl.
  rewrite run_catch_set_instance.
  destruct thrown; reflexivity.
Qed.

Lemma invoke_set_instance (c : Call) (this : Logger) (i : option Logger)
    (s : Sys) :
  invoke c this (set_instance i s) =
  (set_instance i (fst (invoke c this s)), snd (invoke c this s)).
Proof.
  rewrite !invoke_floating; unfold Logger.floating, call_log.
  rewrite log_set_instance.
  destruct (Logger.log (call_level c) (call_message c) (call_error c)
              (call_context c) this s) as [s1 [u|e|]]; reflexivity.
Qed.

(** ... and reads nothing of the configuration but the threshold, the
    stages and the backends. *)
Lemma invoke_config_sim (c : Call) (l1 l2 : Logger) (s : Sys) :
  config_sim (config l1) (config l2) ->
  invoke c l1 s = invoke c l2 s.
Proof.
  intros (Hm & Ht & Hp).
  rewrite !invoke_floating.
  unfold Logger.floating, call_log, Logger.log, Logger.dispatch.
  rewrite Hm, Ht, Hp; reflexivity.
Qed.

Lemma sys_sim_set_instance (s1 s2 : Sys) :
  sys_sim s1 s2 -> s2 = set_instance (instance s2) s1.
Proof.
  intros (_ & Ha & He & Hc & Ht & Hu).
  destruct s1, s2; unfold set_instance; simpl in *; subst; reflexivity.
Qed.

Lemma sys_sim_with (s1 s2 : Sys) (i1 i2 : option Logger) :
  sys_sim s1 s2 -> instance_sim i1 i2 ->
  sys_sim (set_instance i1 s1) (set_instance i2 s2).
Proof.
  intros (_ & Ha & He & Hc & Ht & Hu) Hi.
  unfold sys_sim; simpl; splits; auto.
Qed.

Lemma sys_sim_refl_on (s : Sys) (i : option Logger) :
  instance_sim (instance s) i -> sys_sim s (set_instance i s).
Proof. intros Hi; unfold sys_sim; simpl; splits; auto. Qed.

Lemma answer_sim_refl (a : Completion Answer) :
  (forall l, a <> Normal (AnsLogger l)) -> answer_sim a a.
Proof.
  intros Hl; destruct a as [[l|]|e]; simpl; auto.
  destruct (Hl l eq_refl).
Qed.

(** One operation maps similar systems to similar systems and similar
    answers. *)
Lemma step_sim (o1 o2 : Op) (s1 s2 : Sys) :
  op_sim o1 o2 -> sys_sim s1 s2 ->
  sys_sim (fst (step o1 s1)) (fst (step o2 s2)) /\
  answer_sim (snd (step o1 s1)) (snd (step o2 s2)).
Proof.
  intros Hop Hsim.
  pose proof Hsim as (Hi & Ha & _).
  destruct o1, o2; simpl in Hop; try discriminate.
  - (* init *)
    unfold step, Logger.init.
    destruct (instance s1) as [l1|] eqn:E1, (instance s2) as [l2|] eqn:E2;
      simpl in Hi; try contradiction; simpl.
    + split; [exact Hsim|reflexivity].
    + destruct Hop as (Hm & Ht & Hp).
      assert (Hl : logger_sim (Logger.new (allocated s1) config0)
                     (Logger.new (allocated s2) config1)).
      { unfold logger_sim, config_sim, Logger.new, Logger.resolveConfig;
          simpl; rewrite Ha, Hm, Ht, Hp; auto. }
      split; [|exact Hl].
      destruct Hsim as (_ & Ha' & He & Hc & Htr & Hu).
      unfold sys_sim; simpl; splits; auto.
  - (* getInstance *)
    unfold step, Logger.getInstance.
    destruct (instance s1) as [l1|] eqn:E1, (instance s2) as [l2|] eqn:E2;
      simpl in Hi; try contradiction; simpl; split; auto.
  - (* reset *)
    unfold step, Logger.reset; simpl; split; auto.
    apply sys_sim_with; simpl; auto.
  - (* a logging call *)
    injection Hop as ->.
    unfold step, Logger.getInstance.
    destruct (instance s1) as [l1|] eqn:E1, (instance s2) as [l2|] eqn:E2;
      simpl in Hi; try contradiction; simpl; [|split; auto].
    rewrite (sys_sim_set_instance _ _ Hsim), E2, invoke_set_instance.
    rewrite <- (invoke_config_sim c0 l1 l2 s1 (proj2 Hi)).
    destruct (invoke_frame c0 l1 s1) as (Hfi & _).
    pose proof (invoke_returns c0 l1 s1) as Hr.
    destruct (invoke c0 l1 s1) as [s1' r]; simpl in *; subst r; simpl.
    split; auto.
    apply sys_sim_refl_on; rewrite Hfi, E1; exact Hi.
  - (* addPlugin *)
    injection Hop as ->.
    unfold step, Logger.getInstance.
    destruct (instance s1) as [l1|] eqn:E1, (instance s2) as [l2|] eqn:E2;
      simpl in Hi; try contradiction; simpl; split; auto.
    apply sys_sim_with; auto.
    destruct Hi as (Ho & Hm & Ht & Hp).
    unfold instance_sim, logger_sim, config_sim, Logger.addPlugin; simpl.
    rewrite Hp; auto.
  - (* addTransport *)
    injection Hop as ->.
    unfold step, Logger.getInstance.
    destruct (instance s1) as [l1|] eqn:E1, (instance s2) as [l2|] eqn:E2;
      simpl in Hi; try contradiction; simpl; [|split; auto].
    destruct Hi as (Ho & Hm & Ht & Hp).
    unfold Logger.addTransport; cbv zeta; rewrite Ht.
    destruct (existsb _ (transports (config l2))); simpl; split; auto.
    apply sys_sim_with; auto.
    unfold instance_sim, logger_sim, config_sim; simpl; auto.
  - (* removeTransport *)
    injection Hop as ->.
    unfold step, Logger.getInstance.
    destruct (instance s1) as [l1|] eqn:E1, (instance s2) as [l2|] eqn:E2;
      simpl in Hi; try contradiction; simpl; split; auto.
    apply sys_sim_with; auto.
    destruct Hi as (Ho & Hm & Ht & Hp).
    unfold instance_sim, logger_sim, config_sim, Logger.removeTransport;
      simpl.
    rewrite Ht; auto.
Qed.

Lemma run_sim (ops1 ops2 : list Op) :
  Forall2 op_sim ops1 ops2 ->
  forall s1 s2 : Sys,
    sys_sim s1 s2 ->
    sys_sim (fst (run ops1 s1)) (fst (run ops2 s2)) /\
    Forall2 answer_sim (snd (run ops1 s1)) (snd (run ops2 s2)).
Proof.
  induction 1 as [|o1 o2 ops1 ops2 Hop Hops IH]; intros s1 s2 Hsim; simpl.
  - split; auto.
  - destruct (step_sim o1 o2 s1 s2 Hop Hsim) as (Hs & Ha).
    destruct (step o1 s1) as [s1' a1], (step o2 s2) as [s2' a2].
    simpl in Hs, Ha.
    destruct (IH s1' s2' Hs) as (Hs' & Has).
    destruct (run ops1 s1') as [s1'' as1], (run ops2 s2') as [s2'' as2].
    simpl in *; split; auto.
Qed.

(** C9.  The configured id generator is stored in the logger, and nothing
    observable depends on it: two programs that differ only in the
    [generateId] option of the configurations they pass to [init], run
    from systems that differ only in the generator held by the active
    logger, end with the same world, the same console output, the same
    trace - hence the same records built and the same deliveries - and the
    same unhandled rejections, and give the same answers up to the stored
    generator.  A record consists of the five fields the factory is given
    or reads from the clock; there is no id among them. *)
Theorem C9_generateId_does_not_interfere
    (ops1 ops2 : list Op) (s1 s2 : Sys) :
  Forall2 op_sim ops1 ops2 ->
  sys_sim s1 s2 ->
  (ext (fst (run ops1 s1)) = ext (fst (run ops2 s2)) /\
   console (fst (run ops1 s1)) = console (fst (run ops2 s2)) /\
   trace (fst (run ops1 s1)) = trace (fst (run ops2 s2)) /\
   unhandled (fst (run ops1 s1)) = unhandled (fst (run ops2 s2)) /\
   sys_sim (fst (run ops1 s1)) (fst (run ops2 s2)) /\
   Forall2 answer_sim (snd (run ops1 s1)) (snd (run ops2 s2))) /\
  (forall (o : nat) (cfg : LoggerConfig.t) (g : Ext string),
      LoggerConfig.generateId cfg = Some g ->
      generateId (config (Logger.new o cfg)) = g) /\
  (forall level message error context w,
      createLogEntry level message error context w =
      mkLogEntry level message (currentTime w) error context).
Proof.
  intros Hops Hsim.
  destruct (run_sim ops1 ops2 Hops s1 s2 Hsim) as (Hs & Ha).
  pose proof Hs as (_ & _ & He & Hc & Ht & Hu).
  splits; auto.
  intros o cfg g Hg; simpl; rewrite Hg; reflexivity.
Qed.

(** ** The console backend *)

(** C10.  The table of [resolveConsoleMethod] has no entry for FATAL, so
    for every record of level FATAL, whatever the formatter, the promise of
    [ConsoleTransport.send] rejects with a [TransportError] that names the
    console backend and carries the record; when the formatter returned
    normally the cause is the [TypeError] of calling [undefined].  Such
    records do arise: the public method [fatal] builds its record with level
    FATAL. *)
Theorem C10_console_transport_rejects_fatal
    (options : ConsoleTransportOptions) (entry : LogEntry) (w : World) :
  level entry = FATAL ->
  ConsoleTransport.resolveConsoleMethod (level entry) = None /\
  (exists cause : JsError,
      snd (ConsoleTransport.send options entry w) =
        Normal (Rejects (TransportError
                           "ConsoleTransport failed to send entry"
                           "console" entry cause)) /\
      ((forall f, formatter options = Some f ->
                  exists m, snd (f entry w) = Normal m) ->
       cause = TypeError "consoleMethod is not a function")) /\
  (forall message error context s,
      level (call_entry (CallFatal message error context) s) = level entry).
Proof.
  intros Hfatal; rewrite Hfatal; splits; auto.
  unfold ConsoleTransport.send, ConsoleTransport.try_send.
  rewrite Hfatal; simpl.
  destruct (formatter options) as [f|].
  - destruct (f entry w) as [[w1 out] [m|e]] eqn:Hf; simpl.
    + eexists; split; [reflexivity|auto].
    + exists e; split; [reflexivity|].
      intros Hfmt; destruct (Hfmt f eq_refl) as (m & Hm).
      rewrite Hf in Hm; discriminate.
  - eexists; split; [reflexivity|auto].
Qed.

(** The levels that do have an entry are delivered to the console. *)
Lemma console_transport_delivers_below_fatal
    (entry : LogEntry) (w : World) :
  level entry <> FATAL ->
  exists m : ConsoleMethod,
    ConsoleTransport.resolveConsoleMethod (level entry) = Some m /\
    ConsoleTransport.send (mkConsoleTransportOptions None) entry w =
      (w, [mkConsoleCall m (ConsoleTransport.defaultFormatter entry) None],
       Normal (Fulfills tt)).
Proof.
  intros Hne; unfold ConsoleTransport.send, ConsoleTransport.try_send; simpl.
  destruct (level entry); try congruence; eexists; split; reflexivity.
Qed.

(** ** The backend collection: removal, round trips, unique names *)

Lemma filter_all {A : Type} (f : A -> bool) (l : list A) :
  (forall x, In x l -> f x = true) -> filter f l = l.
Proof.
  induction l as [|a l IH]; intros Hall; simpl; auto.
  rewrite (Hall a (or_introl eq_refl)), IH; auto.
  intros x Hx; apply Hall; right; exact Hx.
Qed.

Lemma filter_twice {A : Type} (f : A -> bool) (l : list A) :
  filter f (filter f l) = filter f l.
Proof.
  apply filter_all; intros x Hx; apply filter_In in Hx; tauto.
Qed.

Lemma other_name (t : Transport) (n : string) :
  negb (String.eqb (name t) n) = true <-> name t <> n.
Proof. rewrite negb_true_iff; apply String.eqb_neq. Qed.

(** X1.  [removeTransport n] removes every backend named [n], not only the
    first one, and keeps every other backend; removing twice is removing
    once; the identity of the logger, the threshold, the stages and the id
    generator are untouched. *)
Theorem X1_removeTransport_removes_every_namesake
    (n : string) (this : Logger) :
  (forall t, In t (transports (config (Logger.removeTransport n this))) <->
             In t (transports (config this)) /\ name t <> n) /\
  Logger.removeTransport n (Logger.removeTransport n this) =
    Logger.removeTransport n this /\
  oid (Logger.removeTransport n this) = oid this /\
  minLevel (config (Logger.removeTransport n this)) = minLevel (config this) /\
  plugins (config (Logger.removeTransport n this)) = plugins (config this) /\
  generateId (config (Logger.removeTransport n this)) =
    generateId (config this).
Proof.
  splits; try reflexivity.
  - intros t; unfold Logger.removeTransport; simpl.
    rewrite filter_In, other_name; reflexivity.
  - unfold Logger.removeTransport; simpl; rewrite filter_twice; reflexivity.
Qed.

(** X4.  After [removeTransport (name t)], registering [t] never throws,
    whatever was registered before: the backend lands at the end of what
    is left of the collection. *)
Theorem X4_removeTransport_then_addTransport_succeeds
    (t : Transport) (this : Logger) :
  exists this' : Logger,
    Logger.addTransport t (Logger.removeTransport (name t) this)
      = Normal this' /\
    transports (config this') =
      filter (fun t0 => negb (String.eqb (name t0) (name t)))
        (transports (config this)) ++ [t] /\
    oid this' = oid this.
Proof.
  assert (Hno : existsb (fun t0 => String.eqb (name t0) (name t))
                  (transports
                     (config (Logger.removeTransport (name t) this)))
                = false).
  { destruct (existsb _ _) eqn:Hex; auto.
    apply existsb_exists in Hex; destruct Hex as (t' & Hin & Heq).
    simpl in Hin; apply filter_In in Hin; destruct Hin as (_ & Hneq).
    rewrite Heq in Hneq; discriminate. }
  eexists; splits.
  - unfold Logger.addTransport; rewrite Hno; reflexivity.
  - reflexivity.
  - reflexivity.
Qed.

Lemma NoDup_snoc {A : Type} (l : list A) (x : A) :
  NoDup l -> ~ In x l -> NoDup (l ++ [x]).
Proof.
  induction 1 as [|a l Ha Hl IH]; intros Hx; simpl.
  - constructor; [intros []|constructor].
  - constructor.
    + intros Hin; apply in_app_or in Hin; destruct Hin as [Hin|[Heq|[]]].
      * exact (Ha Hin).
      * apply Hx; left; symmetry; exact Heq.
    + apply IH; intros Hin; apply Hx; right; exact Hin.
Qed.

Lemma unique_names_filter (f : Transport -> bool) (ts : list Transport) :
  unique_names ts -> unique_names (filter f ts).
Proof.
  unfold unique_names; induction ts as [|t ts IH]; simpl; intros Hnd; auto.
  inversion Hnd as [|x l Hnotin Hrest]; subst.
  destruct (f t); simpl; auto.
  constructor; auto.
  intros Hin; apply Hnotin.
  apply in_map_iff in Hin; destruct Hin as (t' & Hname & Hin').
  apply filter_In in Hin'; destruct Hin' as (Hin' & _).
  apply in_map_iff; exists t'; auto.
Qed.

Lemma unique_names_addTransport (t : Transport) (l l' : Logger) :
  unique_names (transports (config l)) ->
  Logger.addTransport t l = Normal l' ->
  unique_names (transports (config l')).
Proof.
  unfold Logger.addTransport; intros Hu Hadd.
  destruct (existsb (fun t0 => String.eqb (name t0) (name t))
              (transports (config l))) eqn:Hex; inversion Hadd; subst; simpl.
  unfold unique_names; rewrite map_app; simpl.
  apply NoDup_snoc; auto.
  intros Hin; apply in_map_iff in Hin; destruct Hin as (t' & Hname & Hin).
  assert (Htrue : existsb (fun t0 => String.eqb (name t0) (name t))
                    (transports (config l)) = true).
  { apply existsb_exists; exists t'; split; auto.
    apply String.eqb_eq; exact Hname. }
  congruence.
Qed.

Lemma step_keeps_unique_names (op : Op) (s : Sys) :
  (forall l, instance s = Some l -> unique_names (transports (config l))) ->
  init_unique op ->
  forall l, instance (fst (step op s)) = Some l ->
            unique_names (transports (config l)).
Proof.
  intros Hinv Hop l.
  destruct op; unfold step, Logger.init, Logger.getInstance;
    destruct (instance s) as [l0|] eqn:Hi; simpl;
    try rewrite Hi; try discriminate; auto.
  - (* init on an empty slot *)
    intros Heq; inversion Heq; subst; simpl.
    simpl in Hop.
    destruct (LoggerConfig.transports config0); auto; constructor.
  - (* a logging call *)
    destruct (invoke_frame c l0 s) as (Hfi & _).
    pose proof (invoke_returns c l0 s) as Hr.
    destruct (invoke c l0 s) as [s2 r]; simpl in *; subst r; simpl.
    rewrite Hfi, Hi; auto.
  - (* addPlugin *)
    intros Heq; inversion Heq; subst; simpl; auto.
  - (* addTransport *)
    destruct (Logger.addTransport transport l0) as [l'|e] eqn:Hadd; simpl.
    + intros Heq; inversion Heq; subst.
      exact (unique_names_addTransport transport l0 l (Hinv l0 eq_refl) Hadd).
    + rewrite Hi; auto.
  - (* removeTransport *)
    intros Heq; inversion Heq; subst; simpl.
    apply unique_names_filter; auto.
Qed.

(** X5.  Unique names are an invariant of the logger's operations: if the
    active logger, when there is one, has no two backends of the same name,
    and no [init] of the program is given two backends of the same name,
    then after the program the active logger has no two backends of the
    same name.  ([init] itself does not check its configuration, hence the
    condition on it.) *)
Theorem X5_backend_names_stay_unique (ops : list Op) :
  forall s : Sys,
    (forall l, instance s = Some l -> unique_names (transports (config l))) ->
    Forall init_unique ops ->
    forall l, instance (fst (run ops s)) = Some l ->
              unique_names (transports (config l)).
Proof.
  induction ops as [|op ops IH]; intros s Hinv Hops; simpl; auto.
  inversion Hops as [|x xs Hop Hrest]; subst.
  pose proof (step_keeps_unique_names op s Hinv Hop) as H1.
  destruct (step op s) as [s1 a]; simpl in H1.
  pose proof (IH s1 H1 Hrest) as H2.
  destruct (run ops s1) as [s2 answers]; exact H2.
Qed.

(** ** The fan-out: which backends are called *)

Lemma map_send_registered (ts : list Transport) :
  forall (i : nat) (e : LogEntry) (s : Sys),
  exists d : list Event,
    extends s (fst (fst (Logger.map_send ts i e s))) d /\
    plugin_calls d = [] /\
    created d = [] /\
    Forall (fun x => exists t,
                i <= fst (fst x) /\
                nth_error ts (fst (fst x) - i) = Some t /\
                name t = snd (fst x) /\
                snd x = e)
      (send_calls d).
Proof.
  induction ts as [|t ts IH]; intros i e s; simpl.
  - exists []; splits; auto using extends_refl.
  - pose proof (extends_trans _ _ _ _ _
                  (extends_observe (EvSend i (name t) e) s)
                  (extends_run_ext (send t e)
                     (observe (EvSend i (name t) e) s))) as Hstep.
    destruct (run_ext (send t e) (observe (EvSend i (name t) e) s))
      as [s1 r].
    simpl in Hstep.
    assert (Hhead : exists t0,
               i <= fst (fst (i, name t, e)) /\
               nth_error (t :: ts) (fst (fst (i, name t, e)) - i) = Some t0 /\
               name t0 = snd (fst (i, name t, e)) /\
               snd (i, name t, e) = e).
    { exists t; simpl; rewrite Nat.sub_diag; auto. }
    destruct r as [p|err]; simpl.
    + destruct (IH (S i) e s1) as (d & Hext & Hp & Hc & Hall).
      destruct (Logger.map_send ts (S i) e s1) as [[s2 promises] thrown].
      simpl in *.
      exists ([EvSend i (name t) e] ++ d); splits; auto.
      * exact (extends_trans _ _ _ _ _ Hstep Hext).
      * simpl; constructor; auto.
        eapply Forall_impl; [|exact Hall].
        intros [[j m] e'] (t' & Hle & Hnth & Hname & He); simpl in *.
        exists t'; splits; auto; try lia.
        replace (j - i) with (S (j - S i)) by lia; exact Hnth.
    + exists [EvSend i (name t) e]; splits; auto.
      simpl; constructor; auto.
Qed.

(** What a call adds to the trace: one record, or none below the threshold;
    and [send]s on registered backends only, each at its position. *)
Lemma call_log_shape (c : Call) (this : Logger) (s : Sys) :
  exists d : list Event,
    extends s (fst (call_log c this s)) d /\
    created d =
      (if (level_value (call_level c) <?
           level_value (minLevel (config this)))%Z
       then [] else [call_entry c s]) /\
    Forall (fun x => exists t,
                nth_error (transports (config this)) (fst (fst x)) = Some t /\
                name t = snd (fst x))
      (send_calls d).
Proof.
  unfold call_log, Logger.log.
  destruct (level_value (call_level c) <?
            level_value (minLevel (config this)))%Z.
  - exists []; splits; auto using extends_refl.
  - fold (call_entry c s).
    destruct (run_plugins_extends (plugins (config this)) 0 (call_entry c s)
                (observe (EvCreateLogEntry (call_entry c s)) s))
      as (d & n & Hext & _ & Hs & Hc & _ & _).
    pose proof (extends_trans _ _ _ _ _
                  (extends_observe (EvCreateLogEntry (call_entry c s)) s)
                  Hext) as Hext'.
    destruct (Logger.run_plugins (plugins (config this)) 0 (call_entry c s)
                (observe (EvCreateLogEntry (call_entry c s)) s))
      as [s2 [e| |err|]]; simpl in Hext';
      try (eexists; splits;
           [exact Hext'|simpl; rewrite Hc; reflexivity
           |simpl; rewrite Hs; constructor]).
    unfold Logger.dispatch.
    destruct (map_send_registered (transports (config this)) 0 e s2)
      as (d2 & Hext2 & _ & Hc2 & Hall).
    destruct (Logger.map_send (transports (config this)) 0 e s2)
      as [[s3 promises] thrown].
    simpl in Hext2.
    pose proof (extends_trans _ _ _ _ _ Hext2
                  (run_catch_extends promises s3)) as Hext3.
    rewrite app_nil_r in Hext3.
    pose proof (extends_trans _ _ _ _ _ Hext' Hext3) as Hall'.
    exists (([EvCreateLogEntry (call_entry c s)] ++ d) ++ d2); splits.
    + destruct thrown; exact Hall'.
    + rewrite created_app, Hc2, app_nil_r; simpl; rewrite Hc; reflexivity.
    + rewrite send_calls_app; simpl; rewrite Hs; simpl.
      eapply Forall_impl; [|exact Hall].
      intros [[j m] e'] (t' & _ & Hnth & Hname & _); simpl in *.
      rewrite Nat.sub_0_r in Hnth; exists t'; auto.
Qed.

(** X6.  A call invokes [send] on registered backends only, each under its
    own position and name; in particular, once [removeTransport n] has
    run, no call invokes a backend named [n]. *)
Theorem X6_only_registered_backends_are_called
    (c : Call) (this : Logger) (s : Sys) :
  (forall j m e,
      In (j, m, e) (send_calls (events_since s (fst (invoke c this s)))) ->
      exists t, nth_error (transports (config this)) j = Some t /\
                name t = m) /\
  (forall n j m e,
      In (j, m, e)
        (send_calls (events_since s
                       (fst (invoke c (Logger.removeTransport n this) s)))) ->
      m <> n).
Proof.
  assert (Hgen : forall l j m e,
             In (j, m, e) (send_calls (events_since s (fst (invoke c l s)))) ->
             exists t, nth_error (transports (config l)) j = Some t /\
                       name t = m).
  { intros l j m e Hin.
    destruct (call_log_shape c l s) as (d & Hext & _ & Hall).
    rewrite invoke_events, (extends_events _ _ _ Hext) in Hin.
    rewrite Forall_forall in Hall.
    exact (Hall _ Hin). }
  split; [apply Hgen|].
  intros n j m e Hin.
  destruct (Hgen _ j m e Hin) as (t & Hnth & Hname).
  apply nth_error_In in Hnth; simpl in Hnth.
  apply filter_In in Hnth; destruct Hnth as (_ & Hneq).
  apply other_name in Hneq; congruence.
Qed.


(** ** The threshold *)

Lemma level_value_bounds (l : LogLevel) :
  (level_value DEBUG <= level_value l <= level_value FATAL)%Z.
Proof. destruct l; simpl; lia. Qed.

(** X9.  A call builds exactly one record when its level is at least
    [minLevel], and none otherwise; the record carries the level of the
    method, the message, error and context of the call, and the clock
    reading at the time of the call. *)
Theorem X9_one_record_at_or_above_the_threshold
    (c : Call) (this : Logger) (s : Sys) :
  created (events_since s (fst (invoke c this s))) =
    (if (level_value (call_level c) <?
         level_value (minLevel (config this)))%Z
     then []
     else [mkLogEntry (call_level c) (call_message c) (currentTime (ext s))
             (call_error c) (call_context c)]).
Proof.
  destruct (call_log_shape c this s) as (d & Hext & Hc & _).
  rewrite invoke_events, (extends_events _ _ _ Hext); exact Hc.
Qed.

(** X10.  [fatal] is never filtered, whatever the threshold; with the
    threshold DEBUG, which is the default, no method is filtered; and
    [debug] is filtered by every other threshold. *)
Theorem X10_fatal_always_passes_and_debug_rarely
    (message : string) (error : option JsError) (context : option JsRecord)
    (this : Logger) (s : Sys) :
  created (events_since s
             (fst (Logger.fatal message error context this s))) =
    [mkLogEntry FATAL message (currentTime (ext s)) error context] /\
  (forall c : Call,
      minLevel (config this) = DEBUG ->
      created (events_since s (fst (invoke c this s))) = [call_entry c s]) /\
  (minLevel (config this) <> DEBUG ->
   created (events_since s (fst (Logger.debug message context this s)))
     = []).
Proof.
  splits.
  - destruct (call_log_shape (CallFatal message error context) this s)
      as (d & Hext & Hc & _).
    change (Logger.fatal message error context this s)
      with (invoke (CallFatal message error context) this s).
    rewrite invoke_events, (extends_events _ _ _ Hext), Hc.
    destruct (minLevel (config this)); reflexivity.
  - intros c Hmin.
    destruct (call_log_shape c this s) as (d & Hext & Hc & _).
    rewrite invoke_events, (extends_events _ _ _ Hext), Hc, Hmin.
    destruct c; reflexivity.
  - intros Hmin.
    destruct (call_log_shape (CallDebug message context) this s)
      as (d & Hext & Hc & _).
    change (Logger.debug message context this s)
      with (invoke (CallDebug message context) this s).
    rewrite invoke_events, (extends_events _ _ _ Hext), Hc.
    destruct (minLevel (config this)); try reflexivity.
    destruct (Hmin eq_refl).
Qed.

(** ** The stage chain: stalls, extension, safety *)

(** X11.  There is no timeout: if the promise of the stage at position
    [length pre] never settles, the promise of [log] never settles either,
    no later stage runs, no backend is invoked, and no rejection arises;
    the public method has returned normally all the same. *)
Theorem X11_a_hung_stage_stalls_the_call
    (c : Call) (this : Logger) (s : Sys)
    (pre : list Plugin) (p : Plugin) (post : list Plugin)
    (e1 : LogEntry) (s1 : Sys) :
  reaches_stage c this s pre p post e1 s1 ->
  await_plugin (snd (p e1 (ext s1))) = Hangs ->
  snd (call_log c this s) = Hangs /\
  plugin_calls (events_since s (fst (invoke c this s))) =
    seq 0 (S (length pre)) /\
  send_calls (events_since s (fst (invoke c this s))) = [] /\
  snd (invoke c this s) = Normal Undefined /\
  unhandled (fst (invoke c this s)) = unhandled s.
Proof.
  intros Hreach Hhang.
  destruct (log_stops_at_stage c this s pre p post e1 s1 Hreach)
    as (s' & d & Hlog & Hext & Hp & Hs & _).
  { intros e2; rewrite Hhang; discriminate. }
  rewrite Hhang in Hlog.
  rewrite invoke_events, invoke_cases, Hlog; simpl.
  rewrite (extends_events _ _ _ Hext); splits; auto.
  destruct Hext as (_ & _ & Hu & _); exact Hu.
Qed.

(** X12.  [addPlugin] puts the stage at the end of the chain and touches
    nothing else.  The extended chain is the old chain followed by the new
    stage: the new stage is invoked, at the position after the old ones,
    on the record the old chain lets through, and not at all when the old
    chain drops the record, fails or stalls - such calls behave exactly as
    before the addition. *)
Theorem X12_addPlugin_appends_to_the_chain
    (p : Plugin) (this : Logger) (s : Sys) :
  plugins (config (Logger.addPlugin p this)) = plugins (config this) ++ [p] /\
  transports (config (Logger.addPlugin p this)) = transports (config this) /\
  minLevel (config (Logger.addPlugin p this)) = minLevel (config this) /\
  oid (Logger.addPlugin p this) = oid this /\
  (forall e : LogEntry,
      Logger.run_plugins (plugins (config (Logger.addPlugin p this))) 0 e s =
      match Logger.run_plugins (plugins (config this)) 0 e s with
      | (s1, Logger.Survived e1) =>
          Logger.run_plugins [p] (length (plugins (config this))) e1 s1
      | (s1, r) => (s1, r)
      end) /\
  (forall c : Call,
      (forall e1,
          snd (Logger.run_plugins (plugins (config this)) 0 (call_entry c s)
                 (observe (EvCreateLogEntry (call_entry c s)) s))
          <> Logger.Survived e1) ->
      invoke c (Logger.addPlugin p this) s = invoke c this s).
Proof.
  splits; try reflexivity.
  - intros e; simpl; rewrite run_plugins_app; reflexivity.
  - intros c Hstop.
    rewrite !invoke_floating.
    unfold Logger.floating, call_log, Logger.log; simpl.
    destruct (level_value (call_level c) <?
              level_value (minLevel (config this)))%Z; auto.
    fold (call_entry c s).
    rewrite run_plugins_app.
    destruct (Logger.run_plugins (plugins (config this)) 0 (call_entry c s)
                (observe (EvCreateLogEntry (call_entry c s)) s))
      as [s2 [e1| |err|]]; simpl in *; auto.
    destruct (Hstop e1 eq_refl).
Qed.

Lemma run_plugins_never_fails (ps : list Plugin) :
  (forall p, In p ps ->
             forall e w err, await_plugin (snd (p e w)) <> Rejects err) ->
  forall (i : nat) (e : LogEntry) (s : Sys) (err : JsError),
    snd (Logger.run_plugins ps i e s) <> Logger.Failed err.
Proof.
  induction ps as [|p ps IH]; intros Hok i e s err; simpl.
  - discriminate.
  - pose proof (run_ext_snd (p e) (observe (EvPlugin i e) s)) as Hr.
    destruct (run_ext (p e) (observe (EvPlugin i e) s)) as [s1 r].
    simpl in Hr.
    pose proof (Hok p (or_introl eq_refl) e (ext s)) as Hp.
    rewrite <- Hr in Hp.
    destruct (await_plugin r) as [[e1|]|err'|]; simpl; try discriminate.
    + apply IH; intros p' Hin; apply Hok; right; exact Hin.
    + destruct (Hp err' eq_refl).
Qed.

(** X13.  The promise of [log] rejects only through a failing stage or a
    throwing [send]: if no registered stage ever throws or rejects and
    every registered backend always returns a promise, then no call's
    promise rejects and no call leaves a rejection unhandled - however
    many of the backends' promises reject. *)
Theorem X13_log_rejects_only_through_stages_or_throwing_sends
    (c : Call) (this : Logger) (s : Sys) :
  (forall p, In p (plugins (config this)) ->
             forall e w err, await_plugin (snd (p e w)) <> Rejects err) ->
  (forall t, In t (transports (config this)) ->
             forall e w, exists pr, snd (send t e w) = Normal pr) ->
  (forall err, snd (call_log c this s) <> Rejects err) /\
  unhandled (fst (invoke c this s)) = unhandled s.
Proof.
  intros Hps Hts.
  assert (Hlog : forall err, snd (call_log c this s) <> Rejects err).
  { intros err; unfold call_log, Logger.log.
    destruct (level_value (call_level c) <?
              level_value (minLevel (config this)))%Z; [discriminate|].
    fold (call_entry c s).
    pose proof (run_plugins_never_fails (plugins (config this)) Hps 0
                  (call_entry c s)
                  (observe (EvCreateLogEntry (call_entry c s)) s)) as Hnf.
    destruct (Logger.run_plugins (plugins (config this)) 0 (call_entry c s)
                (observe (EvCreateLogEntry (call_entry c s)) s))
      as [s2 [e| |err'|]]; simpl in *; try discriminate.
    - unfold Logger.dispatch.
      destruct (map_send_returns (transports (config this)) e
                  (fun t Hin w => Hts t Hin e w) 0 s2)
        as (d & _ & Hnone & _).
      destruct (Logger.map_send (transports (config this)) 0 e s2)
        as [[s3 promises] thrown].
      simpl in Hnone; subst thrown; discriminate.
    - destruct (Hnf err' eq_refl). }
  split; auto.
  rewrite invoke_cases; simpl.
  destruct (call_log_extends c this s) as (d & n & (_ & _ & Hu & _) & _).
  destruct (snd (call_log c this s)) as [u|err|] eqn:Hfate; auto.
  destruct (Hlog err eq_refl).
Qed.


(** ** The console backend: what it writes *)

(** X15.  For a record below FATAL, [ConsoleTransport.send] fulfils its
    promise after exactly one console call: through [console.debug],
    [console.info], [console.warn] or [console.error] according to the
    level.  Without a formatter, and for a record whose timestamp was read
    off the clock - a [Date] as [new Date()] gives it, on which
    [toISOString] does not throw - the line is
    [[TIME] [LABEL] MESSAGE], followed by [ | ERROR-MESSAGE] when the
    record carries an error.  When a formatter is configured and returns,
    the line is its result instead, after whatever the formatter itself
    printed. *)
Theorem X15_console_send_prints_one_line_by_level
    (entry : LogEntry) (w : World) :
  level entry <> FATAL ->
  exists m : ConsoleMethod,
    ConsoleTransport.resolveConsoleMethod (level entry) = Some m /\
    m = match level entry with
        | DEBUG => console_debug
        | INFO => console_info
        | WARN => console_warn
        | _ => console_error
        end /\
    ((exists w0 : World, timestamp entry = currentTime w0) ->
     ConsoleTransport.send (mkConsoleTransportOptions None) entry w =
       (w,
        [mkConsoleCall m
           ("[" ++ toISOString (timestamp entry) ++ "] ["
            ++ LOG_LEVEL_LABELS (level entry) ++ "] " ++ message entry
            ++ match error entry with
               | Some e => " | " ++ error_message e
               | None => ""
               end)
           None],
        Normal (Fulfills tt))) /\
    (forall f w1 out line,
        f entry w = (w1, out, Normal line) ->
        ConsoleTransport.send (mkConsoleTransportOptions (Some f)) entry w =
          (w1, out ++ [mkConsoleCall m line None], Normal (Fulfills tt))).
Proof.
  intros Hne.
  destruct (level entry) eqn:Hl; try congruence; eexists; splits;
    try reflexivity;
    try (intros _;
         unfold ConsoleTransport.send, ConsoleTransport.try_send,
           ConsoleTransport.defaultFormatter; simpl;
         rewrite Hl; reflexivity);
    intros f w1 out line Hf;
    unfold ConsoleTransport.send, ConsoleTransport.try_send; simpl;
    rewrite Hf, Hl; reflexivity.
Qed.

(** X16.  [ConsoleTransport.send] never throws: it always returns a
    promise.  When the configured formatter throws, at any level, no
    console method is called and the promise rejects with a
    [TransportError] for the console backend whose cause is what the
    formatter threw. *)
Theorem X16_console_send_never_throws
    (options : ConsoleTransportOptions) (entry : LogEntry) (w : World) :
  (exists p : Fate unit,
      snd (ConsoleTransport.send options entry w) = Normal p) /\
  (forall f w1 out e,
      f entry w = (w1, out, Throw e) ->
      ConsoleTransport.send (mkConsoleTransportOptions (Some f)) entry w =
        (w1, out,
         Normal (Rejects (TransportError
                            "ConsoleTransport failed to send entry"
                            "console" entry e)))).
Proof.
  split.
  - unfold ConsoleTransport.send.
    destruct (ConsoleTransport.try_send options entry w) as [[w1 out] [u|e]];
      eexists; reflexivity.
  - intros f w1 out e Hf.
    unfold ConsoleTransport.send, ConsoleTransport.try_send; simpl.
    rewrite Hf; reflexivity.
Qed.

Lemma console_since_app (s s' : Sys) (out : list ConsoleCall) :
  console s' = console s ++ out -> console_since s s' = out.
Proof.
  intros Hc; unfold console_since; rewrite Hc; apply skipn_length_app.
Qed.

(** X17.  A logger whose only backend is the console backend with the
    default formatter, and which has no stage, prints one line per call
    that passes the threshold at a level below FATAL: the formatted record,
    through the console method of the level.  The promise of [log] is
    fulfilled and nothing else happens. *)
Theorem X17_console_logger_prints_calls_below_fatal
    (c : Call) (this : Logger) (s : Sys) :
  transports (config this) =
    [ConsoleTransport.new (mkConsoleTransportOptions None)] ->
  plugins (config this) = [] ->
  (level_value (minLevel (config this)) <= level_value (call_level c))%Z ->
  call_level c <> FATAL ->
  console_since s (fst (invoke c this s)) =
    [mkConsoleCall
       match call_level c with
       | DEBUG => console_debug
       | INFO => console_info
       | WARN => console_warn
       | _ => console_error
       end
       (ConsoleTransport.defaultFormatter (call_entry c s)) None] /\
  send_calls (events_since s (fst (invoke c this s))) =
    [(0, "console", call_entry c s)] /\
  snd (call_log c this s) = Fulfills tt /\
  unhandled (fst (invoke c this s)) = unhandled s.
Proof.
  intros Hts Hps Hlvl Hne.
  apply Z.ltb_ge in Hlvl.
  assert (Hlevel : level (call_entry c s) = call_level c) by reflexivity.
  rewrite invoke_events, invoke_console_since, invoke_cases.
  unfold call_log, Logger.log, Logger.dispatch.
  rewrite Hlvl, Hps, Hts; fold (call_entry c s).
  cbn [Logger.run_plugins Logger.map_send send name ConsoleTransport.new].
  unfold run_ext, ConsoleTransport.send, ConsoleTransport.try_send.
  cbn [formatter]; rewrite Hlevel.
  destruct (call_level c); try congruence; simpl; splits; auto;
    try (apply console_since_app; reflexivity);
    unfold events_since; simpl;
    rewrite <- app_assoc, skipn_length_app; reflexivity.
Qed.

(** X18.  On the same logger a [fatal] call is never printed: it always
    passes the threshold, the console backend rejects it, and the only
    thing that reaches the console is the fan-out's failure report:
    [console.error] with the text [[Logger] Transport "console" failed:]
    and, as second argument, the [TransportError] with the record and the
    [TypeError] as its cause.  The promise of [log] is fulfilled all the
    same. *)
Theorem X18_console_logger_loses_fatal_messages
    (message : string) (error : option JsError) (context : option JsRecord)
    (this : Logger) (s : Sys) :
  transports (config this) =
    [ConsoleTransport.new (mkConsoleTransportOptions None)] ->
  plugins (config this) = [] ->
  console_since s (fst (Logger.fatal message error context this s)) =
    [mkConsoleCall console_error
       ("[Logger] Transport " ++ dquote ++ "console" ++ dquote ++ " failed:")
       (Some
          (TransportError "ConsoleTransport failed to send entry" "console"
             (mkLogEntry FATAL message (currentTime (ext s)) error context)
             (TypeError "consoleMethod is not a function")))] /\
  snd (Logger.log FATAL message error context this s) = Fulfills tt /\
  unhandled (fst (Logger.fatal message error context this s)) = unhandled s.
Proof.
  intros Hts Hps.
  unfold Logger.fatal, Logger.floating, Logger.log, Logger.dispatch.
  assert (Hlvl : (level_value FATAL <? level_value (minLevel (config this)))%Z
                 = false).
  { apply Z.ltb_ge; apply level_value_bounds. }
  rewrite Hlvl, Hps, Hts.
  cbn [Logger.run_plugins Logger.map_send send name ConsoleTransport.new].
  unfold run_ext, ConsoleTransport.send, ConsoleTransport.try_send.
  simpl; splits; auto.
  apply console_since_app; simpl; rewrite app_nil_r; reflexivity.
Qed.

(** X19.  With the empty configuration, [init({})], every default applies:
    no call is filtered, there is no stage and no backend, so each call
    builds its record and does nothing else. *)
Theorem X19_empty_configuration_builds_and_delivers_nothing
    (o : nat) (c : Call) (s : Sys) :
  invoke c (Logger.new o (LoggerConfig.mk None None None None)) s =
    (observe (EvCreateLogEntry (call_entry c s)) s, Normal Undefined) /\
  generateId (config (Logger.new o (LoggerConfig.mk None None None None))) =
    (fun w => let '(w', id) := uuidv4 w in (w', [], id)).
Proof.
  split; [|reflexivity].
  destruct c; reflexivity.
Qed.

(** ** The arrays the logger shares with its caller *)

Lemma write_length {A : Type} (arrays : list (list A)) :
  forall (r : nat) (a : list A),
    length (Shared.write r a arrays) = length arrays.
Proof.
  induction arrays as [|x arrays IH]; intros [|r] a; simpl; auto.
Qed.

Lemma read_write_same {A : Type} (arrays : list (list A)) :
  forall (r : nat) (a : list A),
    r < length arrays -> Shared.read (Shared.write r a arrays) r = a.
Proof.
  unfold Shared.read.
  induction arrays as [|x arrays IH]; intros [|r] a Hr; simpl in *;
    try lia; auto.
  apply IH; lia.
Qed.

Lemma read_write_other {A : Type} (arrays : list (list A)) :
  forall (r r' : nat) (a : list A),
    r' <> r ->
    Shared.read (Shared.write r a arrays) r' = Shared.read arrays r'.
Proof.
  unfold Shared.read.
  induction arrays as [|x arrays IH]; intros [|r] [|r'] a Hne; simpl;
    auto; try congruence.
Qed.

Lemma read_app_old {A : Type} (arrays : list (list A)) (a : list A)
    (r : nat) :
  r < length arrays ->
  Shared.read (arrays ++ [a]) r = Shared.read arrays r.
Proof. intros Hr; unfold Shared.read; apply app_nth1; exact Hr. Qed.

Lemma read_app_new {A : Type} (arrays : list (list A)) (a : list A) :
  Shared.read (arrays ++ [a]) (length arrays) = a.
Proof. unfold Shared.read; apply nth_middle. Qed.

(** X20.  The value model of the instance methods is what a logger sees of
    itself: on a logger whose references point into the heap, [addPlugin],
    [addTransport] - whether it throws or not - and [removeTransport] of
    the model with shared arrays commute with [view], and leave the
    references pointing into the heap. *)
Theorem X20_instance_methods_commute_with_view
    (this : Shared.LoggerRef) (h : Shared.Heap) :
  Shared.logger_ok this h ->
  (forall p,
      Shared.view this (Shared.addPlugin p this h) =
        Logger.addPlugin p (Shared.view this h) /\
      Shared.logger_ok this (Shared.addPlugin p this h)) /\
  (forall t,
      match Shared.addTransport t this h with
      | Normal h' =>
          Logger.addTransport t (Shared.view this h) =
            Normal (Shared.view this h') /\
          Shared.logger_ok this h'
      | Throw e => Logger.addTransport t (Shared.view this h) = Throw e
      end) /\
  (forall n,
      Shared.view (snd (Shared.removeTransport n this h))
        (fst (Shared.removeTransport n this h)) =
        Logger.removeTransport n (Shared.view this h) /\
      Shared.logger_ok (snd (Shared.removeTransport n this h))
        (fst (Shared.removeTransport n this h))).
Proof.
  intros (Ht & Hp); splits.
  - intros p; split.
    + unfold Shared.view, Shared.addPlugin, Logger.addPlugin; simpl.
      rewrite read_write_same by exact Hp; reflexivity.
    + unfold Shared.logger_ok, Shared.addPlugin; simpl.
      rewrite write_length; auto.
  - intros t.
    unfold Shared.addTransport, Logger.addTransport; simpl.
    destruct (existsb (fun t0 => String.eqb (name t0) (name t))
                (Shared.read (Shared.tarrays h) (Shared.transportsRef this)));
      auto.
    split.
    + unfold Shared.view; simpl.
      rewrite read_write_same by exact Ht; reflexivity.
    + unfold Shared.logger_ok; simpl; rewrite write_length; auto.
  - intros n; split.
    + unfold Shared.view, Shared.removeTransport, Logger.removeTransport;
        simpl.
      rewrite read_app_new; reflexivity.
    + unfold Shared.logger_ok, Shared.removeTransport; simpl.
      rewrite length_app; simpl; lia.
Qed.

(** X21.  The constructor commutes with [view] as well, and shares: the
    arrays of the configuration are not copied, the logger holds the very
    references it was given and the heap is left as it was; only an absent
    option leads to a new, empty array. *)
Theorem X21_constructor_keeps_the_callers_arrays
    (o : nat) (cfg : Shared.ConfigRef) (h : Shared.Heap) :
  Shared.config_ok cfg h ->
  Shared.view (snd (Shared.new o cfg h)) (fst (Shared.new o cfg h)) =
    Logger.new o (Shared.view_config cfg h) /\
  Shared.logger_ok (snd (Shared.new o cfg h)) (fst (Shared.new o cfg h)) /\
  (forall r, Shared.transportsOpt cfg = Some r ->
             Shared.transportsRef (snd (Shared.new o cfg h)) = r /\
             Shared.tarrays (fst (Shared.new o cfg h)) = Shared.tarrays h) /\
  (forall r, Shared.pluginsOpt cfg = Some r ->
             Shared.pluginsRef (snd (Shared.new o cfg h)) = r /\
             Shared.parrays (fst (Shared.new o cfg h)) = Shared.parrays h) /\
  (Shared.transportsOpt cfg = None ->
   Shared.transportsRef (snd (Shared.new o cfg h)) =
     length (Shared.tarrays h)) /\
  (Shared.pluginsOpt cfg = None ->
   Shared.pluginsRef (snd (Shared.new o cfg h)) = length (Shared.parrays h)).
Proof.
  intros (Ht & Hp).
  unfold Shared.new, Shared.view, Shared.view_config, Shared.logger_ok,
    Logger.new, Logger.resolveConfig, Shared.or_empty.
  destruct cfg as [m [rt|] [rp|] g]; simpl in *; splits;
    try reflexivity; try discriminate;
    rewrite ?read_app_new, ?length_app; simpl; auto; try lia;
    try (intros r Hr; inversion Hr; subst; auto).
Qed.

(** X22.  [addTransport] mutates the array of the caller: when the
    configuration given to the constructor holds an array and the new
    name does not occur in it, that array itself has the backend at its
    end after the call - so a logger built later from the same
    configuration starts with that backend registered. *)
Theorem X22_addTransport_pushes_onto_the_callers_array
    (o : nat) (cfg : Shared.ConfigRef) (h : Shared.Heap)
    (r : nat) (t : Transport) :
  Shared.transportsOpt cfg = Some r ->
  Shared.config_ok cfg h ->
  (forall t', In t' (Shared.read (Shared.tarrays h) r) ->
              name t' <> name t) ->
  exists h' : Shared.Heap,
    Shared.addTransport t (snd (Shared.new o cfg h)) (fst (Shared.new o cfg h))
      = Normal h' /\
    Shared.read (Shared.tarrays h') r =
      Shared.read (Shared.tarrays h) r ++ [t] /\
    (forall o',
        transports (config (Shared.view (snd (Shared.new o' cfg h'))
                              (fst (Shared.new o' cfg h')))) =
        Shared.read (Shared.tarrays h) r ++ [t]).
Proof.
  intros Hr (Ht & Hp) Hfresh.
  assert (Hno : existsb (fun t0 => String.eqb (name t0) (name t))
                  (Shared.read (Shared.tarrays h) r) = false).
  { destruct (existsb _ _) eqn:Hex; auto.
    apply existsb_exists in Hex; destruct Hex as (t' & Hin & Heq).
    apply String.eqb_eq in Heq; destruct (Hfresh t' Hin Heq). }
  rewrite Hr in Ht; simpl in Ht.
  unfold Shared.new, Shared.addTransport, Shared.or_empty; rewrite Hr.
  destruct (Shared.pluginsOpt cfg) as [rp|]; simpl; rewrite Hno;
    eexists; splits; try reflexivity; simpl;
    try (rewrite read_write_same by exact Ht; reflexivity);
    intros o'; unfold Shared.view; simpl;
    rewrite read_write_same by exact Ht; reflexivity.
Qed.

(** X23.  [addPlugin] mutates the array of the caller in the same way, and
    since no operation ever replaces the array of stages, the logger and
    its caller share it for good. *)
Theorem X23_addPlugin_pushes_onto_the_callers_array
    (o : nat) (cfg : Shared.ConfigRef) (h : Shared.Heap)
    (r : nat) (p : Plugin) :
  Shared.pluginsOpt cfg = Some r ->
  Shared.config_ok cfg h ->
  Shared.read
    (Shared.parrays
       (Shared.addPlugin p (snd (Shared.new o cfg h))
          (fst (Shared.new o cfg h)))) r =
    Shared.read (Shared.parrays h) r ++ [p] /\
  (forall n t,
      Shared.pluginsRef
        (snd (Shared.removeTransport n (snd (Shared.new o cfg h))
                (fst (Shared.new o cfg h)))) = r /\
      match Shared.addTransport t (snd (Shared.new o cfg h))
              (fst (Shared.new o cfg h)) with
      | Normal h' => Shared.parrays h' = Shared.parrays h
      | Throw _ => True
      end).
Proof.
  intros Hr (Ht & Hp).
  rewrite Hr in Hp; simpl in Hp.
  unfold Shared.new, Shared.addPlugin, Shared.addTransport,
    Shared.removeTransport, Shared.or_empty; rewrite Hr.
  destruct (Shared.transportsOpt cfg) as [rt|]; simpl; splits;
    try (rewrite read_write_same by exact Hp; reflexivity);
    intros n t; split; auto;
    destruct (existsb _ _); auto.
Qed.

(** X24.  [removeTransport] mutates no array: every array of the heap,
    the one of the caller included, is what it was, and the logger is
    redirected to a newly allocated array.  From then on the two are
    detached: a later [addTransport] changes no array that existed before
    the removal. *)
Theorem X24_removeTransport_detaches_from_the_callers_array
    (n : string) (this : Shared.LoggerRef) (h : Shared.Heap) :
  (forall r, r < length (Shared.tarrays h) ->
             Shared.read
               (Shared.tarrays (fst (Shared.removeTransport n this h))) r =
             Shared.read (Shared.tarrays h) r) /\
  Shared.parrays (fst (Shared.removeTransport n this h)) = Shared.parrays h /\
  Shared.transportsRef (snd (Shared.removeTransport n this h)) =
    length (Shared.tarrays h) /\
  (forall t h'',
      Shared.addTransport t (snd (Shared.removeTransport n this h))
        (fst (Shared.removeTransport n this h)) = Normal h'' ->
      forall r, r < length (Shared.tarrays h) ->
                Shared.read (Shared.tarrays h'') r =
                Shared.read (Shared.tarrays h) r).
Proof.
  unfold Shared.removeTransport; simpl; splits; auto.
  - intros r Hr; apply read_app_old; exact Hr.
  - intros t h'' Hadd r Hr.
    unfold Shared.addTransport in Hadd; simpl in Hadd.
    destruct (existsb _ _); inversion Hadd; subst; simpl.
    rewrite read_write_other by lia.
    apply read_app_old; exact Hr.
Qed.

(** X2.  Removing a name that no registered backend has keeps the
    contents: the logger sees the same backends in the same order, and
    its threshold, stages and id generator are what they were.  It is not
    a no-op on the object, though: [filter] returns a new array even when
    it removes nothing, so the logger now holds a newly allocated array
    and no longer the one it held before - which stays in the heap as it
    was. *)
Theorem X2_removeTransport_of_absent_name_keeps_the_contents
    (n : string) (this : Shared.LoggerRef) (h : Shared.Heap) :
  Shared.logger_ok this h ->
  (forall t, In t (Shared.read (Shared.tarrays h) (Shared.transportsRef this))
             -> name t <> n) ->
  Shared.view (snd (Shared.removeTransport n this h))
    (fst (Shared.removeTransport n this h)) = Shared.view this h /\
  Shared.transportsRef (snd (Shared.removeTransport n this h)) <>
    Shared.transportsRef this /\
  Shared.transportsRef (snd (Shared.removeTransport n this h)) =
    length (Shared.tarrays h) /\
  Shared.read (Shared.tarrays (fst (Shared.removeTransport n this h)))
    (Shared.transportsRef this) =
    Shared.read (Shared.tarrays h) (Shared.transportsRef this).
Proof.
  intros (Ht & Hp) Habsent.
  unfold Shared.removeTransport, Shared.view; simpl; splits.
  - rewrite read_app_new, filter_all; [reflexivity|].
    intros t Hin; apply other_name; exact (Habsent t Hin).
  - lia.
  - reflexivity.
  - apply read_app_old; exact Ht.
Qed.

(** X3.  Registering a backend under a fresh name and then removing that
    name restores the contents, not the object: the logger sees the
    backends it started with, but it sees them in a newly allocated
    array, while the array it held before - the one its creator may
    still hold - keeps the backend that was pushed onto it. *)
Theorem X3_addTransport_then_removeTransport_restores_the_contents
    (t : Transport) (this : Shared.LoggerRef) (h : Shared.Heap) :
  Shared.logger_ok this h ->
  (forall t', In t' (Shared.read (Shared.tarrays h)
                       (Shared.transportsRef this)) ->
              name t' <> name t) ->
  exists h' : Shared.Heap,
    Shared.addTransport t this h = Normal h' /\
    In t (transports (config (Shared.view this h'))) /\
    Shared.view (snd (Shared.removeTransport (name t) this h'))
      (fst (Shared.removeTransport (name t) this h')) = Shared.view this h /\
    Shared.transportsRef (snd (Shared.removeTransport (name t) this h')) <>
      Shared.transportsRef this /\
    Shared.read
      (Shared.tarrays (fst (Shared.removeTransport (name t) this h')))
      (Shared.transportsRef this) =
      Shared.read (Shared.tarrays h) (Shared.transportsRef this) ++ [t].
Proof.
  intros (Ht & Hp) Hfresh.
  assert (Hno : existsb (fun t0 => String.eqb (name t0) (name t))
                  (Shared.read (Shared.tarrays h)
                     (Shared.transportsRef this)) = false).
  { destruct (existsb _ _) eqn:Hex; auto.
    apply existsb_exists in Hex; destruct Hex as (t' & Hin & Heq).
    apply String.eqb_eq in Heq; destruct (Hfresh t' Hin Heq). }
  unfold Shared.addTransport; rewrite Hno.
  eexists; split; [reflexivity|].
  unfold Shared.removeTransport, Shared.view; simpl; splits.
  - rewrite read_write_same by exact Ht.
    apply in_or_app; right; left; reflexivity.
  - rewrite read_app_new, read_write_same by exact Ht.
    rewrite filter_app; simpl.
    rewrite String.eqb_refl; simpl.
    rewrite app_nil_r, filter_all; [reflexivity|].
    intros t' Hin; apply other_name; exact (Hfresh t' Hin).
  - rewrite write_length; lia.
  - rewrite read_app_old by (rewrite write_length; exact Ht).
    apply read_write_same; exact Ht.
Qed.

(** ** The fan-out: what reaches the console *)

Lemma concat_silent
    (runs : list (Transport * list ConsoleCall * Completion (Fate unit))) :
  Forall (fun x => snd (fst x) = [] /\ returns_promise x) runs ->
  concat (map (fun x => snd (fst x)) runs) = [] /\
  Forall returns_promise runs.
Proof.
  induction 1 as [|x runs [Hq Hp] Hall [IHc IHp]]; simpl; auto.
  rewrite Hq, IHc; auto.
Qed.

(** X25.  Exactly the rejections are reported.  Let the record survive
    the chain as [e] with nothing printed so far, and let every call of
    [send] in the fan-out run on [e] print nothing and return a promise.
    Then what the call leaves on the console is, up to order, one
    [console.error] for each backend whose promise rejects, with the text
    [[Logger] Transport "NAME" failed:] and the rejection as second
    argument, and nothing for a backend whose promise is fulfilled or
    never settles.  The reports appear in the order in which the promises
    reject, which is not the array order in general: the statement fixes
    the reports and leaves their order open. *)
Theorem X25_exactly_the_rejecting_backends_are_reported
    (c : Call) (this : Logger) (s : Sys) (e : LogEntry) (s2 : Sys) :
  survives_chain c this s e s2 ->
  console s2 = console s ->
  Forall (fun x => snd (fst x) = [] /\ returns_promise x)
    (fanout_run (transports (config this)) e (ext s2)) ->
  Permutation
    (console_since s (fst (invoke c this s)))
    (flat_map (fun x => match snd x with
                        | Normal (Rejects err) =>
                            [mkConsoleCall console_error
                               ("[Logger] Transport " ++ dquote
                                ++ name (fst (fst x)) ++ dquote
                                ++ " failed:")
                               (Some err)]
                        | _ => []
                        end)
       (fanout_run (transports (config this)) e (ext s2))).
Proof.
  intros Hsurv Hquiet Hsilent.
  destruct (concat_silent _ Hsilent) as (Hnil & Hok).
  destruct (log_fans_out c this s e s2 Hsurv Hok)
    as (s' & d & Hlog & _ & _ & o1 & _ & Hc).
  rewrite invoke_console_since, Hlog; simpl.
  unfold console_since.
  rewrite Hc, Hnil, Hquiet, skipn_length_app; simpl.
  apply Permutation_refl.
Qed.

End Properties.

(** * Closed instances

    The scenarios of the test-suite, run on [demoHost]. *)

Section Scenarios.
Local Open Scope list_scope.

(** ** Severity gate *)

Lemma C3_witness :
  Logger.log DEBUG "x" None None
    (demoLogger INFO [working "B"] [enrich demoCtx])
    (demoSys None) = (demoSys None, Fulfills tt) /\
  forall c : Call,
    call_level c = DEBUG ->
    invoke c (demoLogger INFO [working "B"] [enrich demoCtx]) (demoSys None)
      = (demoSys None, Normal Undefined) /\
    created (events_since (demoSys None)
               (fst (invoke c (demoLogger INFO [working "B"] [enrich demoCtx])
                       (demoSys None)))) = [] /\
    plugin_calls (events_since (demoSys None)
               (fst (invoke c (demoLogger INFO [working "B"] [enrich demoCtx])
                       (demoSys None)))) = [] /\
    send_calls (events_since (demoSys None)
               (fst (invoke c (demoLogger INFO [working "B"] [enrich demoCtx])
                       (demoSys None)))) = [].
Proof.
  apply (C3_below_threshold_nothing_happens DEBUG "x" None None
           (demoLogger INFO [working "B"] [enrich demoCtx]) (demoSys None)).
  simpl; lia.
Defined.

(** ** Stage chain *)

Lemma C2_witness :
  (plugin_events (events_since (demoSys None)
                    (fst (invoke demoSkip demoAsyncDropLogger (demoSys None))))
     = [(0, demoSkipBuilt); (1, demoSkipEnriched); (2, demoSkipRestamped)] /\
   plugin_calls (events_since (demoSys None)
                   (fst (invoke demoSkip demoAsyncDropLogger (demoSys None))))
     = [0; 1; 2] /\
   send_calls (events_since (demoSys None)
                 (fst (invoke demoSkip demoAsyncDropLogger (demoSys None))))
     = [] /\
   ext (fst (invoke demoSkip demoAsyncDropLogger (demoSys None))) = 43 /\
   snd (call_log demoSkip demoAsyncDropLogger (demoSys None)) = Fulfills tt /\
   snd (invoke demoSkip demoAsyncDropLogger (demoSys None))
     = Normal Undefined /\
   unhandled (fst (invoke demoSkip demoAsyncDropLogger (demoSys None))) = []) /\
  (plugin_events (events_since (demoSys None)
                    (fst (invoke demoSkip demoAsyncPassLogger (demoSys None))))
     = [(0, demoSkipBuilt); (1, demoSkipEnriched)] /\
   exists s2 : Sys,
     survives_chain demoSkip demoAsyncPassLogger (demoSys None)
       demoSkipRestamped s2 /\
     ext s2 = 43).
Proof.
  split.
  - destruct (C2_stage_order_and_drop demoSkip demoAsyncDropLogger
                (demoSys None)) as (_ & _ & Hdrop).
    apply (Hdrop [demoEnrichAsync demoCtx; demoRestampAsync] blockAllAsync
             [faulty boom] [demoSkipBuilt; demoSkipEnriched]
             demoSkipRestamped 43).
    + simpl; lia.
    + reflexivity.
    + reflexivity.
    + right; reflexivity.
  - destruct (C2_stage_order_and_drop demoSkip demoAsyncPassLogger
                (demoSys None)) as (_ & Hpass & _).
    apply (Hpass [demoSkipBuilt; demoSkipEnriched] demoSkipRestamped 43).
    + simpl; lia.
    + reflexivity.
Defined.


(** C4 as stated fails: the stage throws (or its promise rejects), yet the
    public method neither throws nor returns a rejected promise - it
    returns [undefined]. *)
Lemma C4_counterexample :
  (reaches_stage demoFail demoFaultyLogger (demoSys None)
     [enrich demoCtx] (faulty boom) []
     (mkLogEntry ERROR "x" 42%Z None (Some demoCtx))
     (observe (EvPlugin 0 (demoEntry ERROR "x"))
        (observe (EvCreateLogEntry (demoEntry ERROR "x")) (demoSys None))) /\
   await_plugin
     (snd (faulty (H := demoHost) boom
             (mkLogEntry ERROR "x" 42%Z None (Some demoCtx)) 42))
     = Rejects boom /\
   snd (invoke demoFail demoFaultyLogger (demoSys None)) = Normal Undefined /\
   ~ propagates_to_caller
       (snd (invoke demoFail demoFaultyLogger (demoSys None))) boom) /\
  (reaches_stage demoFail demoFaultyAsyncLogger (demoSys None)
     [] (faultyAsync boom) [] (demoEntry ERROR "x")
     (observe (EvCreateLogEntry (demoEntry ERROR "x")) (demoSys None)) /\
   await_plugin
     (snd (faultyAsync (H := demoHost) boom (demoEntry ERROR "x") 42))
     = Rejects boom /\
   ~ propagates_to_caller
       (snd (invoke demoFail demoFaultyAsyncLogger (demoSys None))) boom).
Proof.
  split.
  - split; [split; [simpl; lia|split; reflexivity]|].
    split; [reflexivity|].
    split; [reflexivity|].
    intros [Habs|Habs]; vm_compute in Habs; discriminate.
  - split; [split; [simpl; lia|split; reflexivity]|].
    split; [reflexivity|].
    intros [Habs|Habs]; vm_compute in Habs; discriminate.
Qed.

Lemma C4_witness :
  snd (call_log demoFail demoFaultyLogger (demoSys None)) = Rejects boom /\
  plugin_calls (events_since (demoSys None)
                  (fst (invoke demoFail demoFaultyLogger (demoSys None))))
    = [0; 1] /\
  send_calls (events_since (demoSys None)
                (fst (invoke demoFail demoFaultyLogger (demoSys None)))) = [] /\
  snd (invoke demoFail demoFaultyLogger (demoSys None)) = Normal Undefined /\
  ~ propagates_to_caller
      (snd (invoke demoFail demoFaultyLogger (demoSys None))) boom /\
  unhandled (fst (invoke demoFail demoFaultyLogger (demoSys None)))
    = [] ++ [boom].
Proof.
  eapply (C4_stage_error_rejects_log_and_aborts_dispatch
            demoFail demoFaultyLogger (demoSys None)
            [enrich demoCtx] (faulty boom) []).
  - split; [simpl; lia|split; reflexivity].
  - reflexivity.
Defined.

(** ** Fan-out *)


(** C5 fails on the code: with the backends [A; B], where [A.send] throws
    instead of returning a promise, an [error] call invokes [A] and never
    [B]; nothing is reported on the console, and the promise of [log]
    rejects with what [A] threw, a rejection nobody handles.  The public
    method itself still returns normally. *)
Theorem C5_synchronous_throw_breaks_the_fanout :
  send_calls (events_since (demoSys None)
                (fst (invoke demoFail demoThrowingLogger (demoSys None))))
    = [(0, "A", demoEntry ERROR "x")] /\
  ~ In (1, "B", demoEntry ERROR "x")
      (send_calls (events_since (demoSys None)
                     (fst (invoke demoFail demoThrowingLogger
                             (demoSys None))))) /\
  console_since (demoSys None)
    (fst (invoke demoFail demoThrowingLogger (demoSys None))) = [] /\
  snd (call_log demoFail demoThrowingLogger (demoSys None)) = Rejects boom /\
  unhandled (fst (invoke demoFail demoThrowingLogger (demoSys None)))
    = [boom] /\
  snd (invoke demoFail demoThrowingLogger (demoSys None)) = Normal Undefined.
Proof.
  repeat split; try reflexivity.
  intros Hin; vm_compute in Hin.
  destruct Hin as [Heq|[]]; discriminate.
Qed.


(** ** Backend collection *)

Lemma C6_witness :
  (Logger.addTransport (working "http") demoHttpLogger =
     Throw (Logger.already_registered "http") /\
   step (OpAddTransport (working "http")) (demoSys (Some demoHttpLogger)) =
     (demoSys (Some demoHttpLogger),
      Throw (Logger.already_registered "http"))) /\
  (exists this' : Logger,
     Logger.addTransport (working "file") demoHttpLogger = Normal this' /\
     transports (config this') = [working "http"] ++ [working "file"] /\
     oid this' = 0 /\
     minLevel (config this') = DEBUG /\
     plugins (config this') = [] /\
     generateId (config this') = generateId (config demoHttpLogger) /\
     step (OpAddTransport (working "file")) (demoSys (Some demoHttpLogger)) =
       (set_instance (Some this') (demoSys (Some demoHttpLogger)),
        Normal AnsUndefined)).
Proof.
  split.
  - apply (proj1 (C6_addTransport_rejects_duplicates_and_appends
                    (working "http") demoHttpLogger
                    (demoSys (Some demoHttpLogger)) eq_refl)).
    exists (working "http"); split; [left; reflexivity|reflexivity].
  - apply (proj2 (C6_addTransport_rejects_duplicates_and_appends
                    (working "file") demoHttpLogger
                    (demoSys (Some demoHttpLogger)) eq_refl)).
    intros t [<-|[]]; simpl; discriminate.
Defined.

(** ** Lifecycle guard *)

Lemma C7_witness :
  Logger.init demoConfig2 (fst (run demoBusy demoActive)) =
    (fst (run demoBusy demoActive), Throw Logger.already_initialized) /\
  (exists l, instance (fst (run demoBusy demoActive)) = Some l /\
             oid l = 1) /\
  instance demoActive = Some (Logger.new 1 demoConfig1) /\
  config (Logger.new 1 demoConfig1) = Logger.resolveConfig demoConfig1.
Proof.
  apply (C7_second_init_fails_and_changes_nothing
           demoConfig1 demoConfig2 (demoSys None) demoActive
           (Logger.new 1 demoConfig1) demoBusy).
  - reflexivity.
  - reflexivity.
Defined.

Lemma C8_witness :
  (Logger.getInstance (demoSys None) =
     (demoSys None, Throw Logger.not_initialized) /\
   Logger.reset (demoSys None) = (demoSys None, Normal tt)) /\
  (Logger.getInstance (fst (run demoTeardown (fst (Logger.reset demoActive))))
     = (fst (run demoTeardown (fst (Logger.reset demoActive))),
        Throw Logger.not_initialized) /\
   forall config : LoggerConfig.t,
   exists (s2 : Sys) (l : Logger),
     Logger.init config (fst (run demoTeardown (fst (Logger.reset demoActive))))
       = (s2, Normal l) /\
     l = Logger.new
           (allocated (fst (run demoTeardown (fst (Logger.reset demoActive)))))
           config /\
     Logger.getInstance s2 = (s2, Normal l)).
Proof.
  split.
  - apply (proj1 (C8_lifecycle_state_machine (demoSys None))); reflexivity.
  - apply (proj2 (C8_lifecycle_state_machine demoActive) demoTeardown);
      reflexivity.
Defined.

(** ** Id generator *)

Lemma C9_witness :
  (ext (fst (run (demoSession (Some demoGen)) (demoSys None))) =
   ext (fst (run (demoSession None) (demoSys None))) /\
   console (fst (run (demoSession (Some demoGen)) (demoSys None))) =
   console (fst (run (demoSession None) (demoSys None))) /\
   trace (fst (run (demoSession (Some demoGen)) (demoSys None))) =
   trace (fst (run (demoSession None) (demoSys None))) /\
   unhandled (fst (run (demoSession (Some demoGen)) (demoSys None))) =
   unhandled (fst (run (demoSession None) (demoSys None))) /\
   sys_sim (fst (run (demoSession (Some demoGen)) (demoSys None)))
     (fst (run (demoSession None) (demoSys None))) /\
   Forall2 answer_sim
     (snd (run (demoSession (Some demoGen)) (demoSys None)))
     (snd (run (demoSession None) (demoSys None)))) /\
  (forall (o : nat) (cfg : @LoggerConfig.t demoHost) (g : Ext string),
      LoggerConfig.generateId cfg = Some g ->
      generateId (config (Logger.new o cfg)) = g) /\
  (forall level message error context w,
      createLogEntry (H := demoHost) level message error context w =
      mkLogEntry level message (currentTime w) error context).
Proof.
  apply (C9_generateId_does_not_interfere
           (demoSession (Some demoGen)) (demoSession None)
           (demoSys None) (demoSys None)).
  - repeat constructor.
  - repeat split.
Defined.

(** ** Console backend *)

Lemma C10_witness :
  ConsoleTransport.resolveConsoleMethod (level demoFatalEntry) = None /\
  (exists cause : JsError,
      snd (ConsoleTransport.send (H := demoHost)
             (mkConsoleTransportOptions None) demoFatalEntry 42) =
        Normal (Rejects (TransportError
                           "ConsoleTransport failed to send entry"
                           "console" demoFatalEntry cause)) /\
      ((forall f,
           formatter (mkConsoleTransportOptions (H := demoHost) None)
             = Some f ->
           exists m, snd (f demoFatalEntry 42) = Normal m) ->
       cause = TypeError "consoleMethod is not a function")) /\
  (forall message error context s,
      level (call_entry (H := demoHost)
               (CallFatal message error context) s)
      = level demoFatalEntry).
Proof.
  apply (C10_console_transport_rejects_fatal (H := demoHost)
           (mkConsoleTransportOptions None) demoFatalEntry 42).
  reflexivity.
Defined.

(** What a [fatal] call through the console backend leaves on the console:
    not the message, but the report of the fan-out. *)
Example fatal_through_console_transport :
  console_since (demoSys None)
    (fst (invoke (CallFatal "y" (Some boom) None) demoConsoleLogger
            (demoSys None))) =
  [mkConsoleCall console_error
     ("[Logger] Transport " ++ dquote ++ "console" ++ dquote ++ " failed:")
     (Some
        (TransportError "ConsoleTransport failed to send entry" "console"
           demoFatalEntry (TypeError "consoleMethod is not a function")))].
Proof. reflexivity. Qed.

Example error_through_console_transport :
  console_since (demoSys None)
    (fst (invoke (CallError "y" (Some boom) None) demoConsoleLogger
            (demoSys None))) =
  [mkConsoleCall console_error
     "[1970-01-01T00:00:00.000Z] [ERROR] y | boom" None].
Proof. reflexivity. Qed.


(** ** The scenarios of the specification *)

Example scenario_gate :
  send_calls (trace (fst (run scenarioGate (demoSys None)))) =
    [(0, "B", demoEntry ERROR "y")] /\
  created (trace (fst (run scenarioGate (demoSys None)))) =
    [demoEntry ERROR "y"].
Proof. split; reflexivity. Qed.

Example scenario_chain :
  send_calls (trace (fst (run scenarioChain (demoSys None)))) =
    [(0, "B", mkLogEntry INFO "keep-me" 42%Z None (Some demoCtx))] /\
  plugin_calls (trace (fst (run scenarioChain (demoSys None)))) =
    [0; 1; 0; 1].
Proof. split; reflexivity. Qed.

Example scenario_fanout :
  send_calls (trace (fst (run scenarioFanout (demoSys None)))) =
    [(0, "failing", demoEntry WARN "z"); (1, "working", demoEntry WARN "z")] /\
  console (fst (run scenarioFanout (demoSys None))) =
    [mkConsoleCall console_error
       ("[Logger] Transport " ++ dquote ++ "failing" ++ dquote ++ " failed:")
       (Some networkError)] /\
  unhandled (fst (run scenarioFanout (demoSys None))) = [] /\
  snd (run scenarioFanout (demoSys None)) =
    [Normal (AnsLogger
               (Logger.new 1
                  (LoggerConfig.mk None
                     (Some [failing "failing" networkError; working "working"])
                     None None)));
     Normal AnsUndefined].
Proof. repeat split; reflexivity. Qed.

Example scenario_async_drop :
  plugin_calls (trace (fst (run scenarioAsyncDrop (demoSys None)))) = [0] /\
  send_calls (trace (fst (run scenarioAsyncDrop (demoSys None)))) = [] /\
  unhandled (fst (run scenarioAsyncDrop (demoSys None))) = [].
Proof. repeat split; reflexivity. Qed.

(** ** Backend collection: removal and round trips *)

Lemma X5_witness :
  match instance (fst (run demoRegistry (demoSys None))) with
  | Some l => unique_names (transports (config l))
  | None => False
  end.
Proof.
  pose proof (X5_backend_names_stay_unique demoRegistry (demoSys None))
    as Hinv.
  simpl in Hinv |- *.
  apply (fun Hstart Hinits => Hinv Hstart Hinits _ eq_refl).
  - intros l Hl; discriminate.
  - repeat constructor; simpl; intros [].
Defined.

Lemma X6_witness :
  (exists t, nth_error (transports (config demoFanoutLogger)) 1 = Some t /\
             name t = "working") /\
  "working" <> "failing".
Proof.
  destruct (X6_only_registered_backends_are_called
              demoWarn demoFanoutLogger (demoSys None)) as [Hreg _].
  destruct (X6_only_registered_backends_are_called
              demoWarn demoFanoutLogger (demoSys None)) as [_ Hgone].
  split.
  - apply (Hreg 1 "working" (demoEntry WARN "z")).
    right; left; reflexivity.
  - apply (Hgone "failing" 0 "working" (demoEntry WARN "z")).
    left; reflexivity.
Defined.


(** ** Fan-out: every backend, any number of failures *)


Lemma X25_witness :
  Permutation
    (console_since (demoSys None)
       (fst (invoke demoWarn demoMixedLogger (demoSys None))))
    [mkConsoleCall console_error
       ("[Logger] Transport " ++ dquote ++ "a" ++ dquote ++ " failed:")
       (Some networkError);
     mkConsoleCall console_error
       ("[Logger] Transport " ++ dquote ++ "c" ++ dquote ++ " failed:")
       (Some boom)].
Proof.
  apply (X25_exactly_the_rejecting_backends_are_reported
           demoWarn demoMixedLogger (demoSys None)
           (demoEnriched WARN "z") demoMixedSurvived).
  - split; [simpl; lia|reflexivity].
  - reflexivity.
  - repeat (constructor; [split; [reflexivity|eexists; reflexivity]|]);
      constructor.
Defined.

Lemma X8_witness :
  send_calls (events_since (demoSys None)
                (fst (invoke demoFail demoThrowingMiddle (demoSys None)))) =
    [(0, "first", demoEntry ERROR "x"); (1, "A", demoEntry ERROR "x")] /\
  snd (call_log demoFail demoThrowingMiddle (demoSys None)) = Rejects boom /\
  snd (invoke demoFail demoThrowingMiddle (demoSys None))
    = Normal Undefined /\
  unhandled (fst (invoke demoFail demoThrowingMiddle (demoSys None)))
    = [] ++ [boom].
Proof.
  eapply (fanout_stops_at_throwing_backend
            demoFail demoThrowingMiddle (demoSys None)
            (demoEntry ERROR "x") _
            [failing "first" networkError] (throwing "A" boom)
            [working "B"] boom).
  - split; [simpl; lia|reflexivity].
  - reflexivity.
  - intros t [<-|[]] w; eexists; reflexivity.
  - intros w; reflexivity.
Defined.

(** ** Threshold *)

Lemma X10_witness :
  created (events_since (demoSys None)
             (fst (Logger.fatal "down" (Some boom) None
                     (demoLogger FATAL [] []) (demoSys None)))) =
    [mkLogEntry FATAL "down" 42%Z (Some boom) None] /\
  created (events_since (demoSys None)
             (fst (invoke demoSkip demoHttpLogger (demoSys None)))) =
    [demoEntry INFO "skip-me"] /\
  created (events_since (demoSys None)
             (fst (Logger.debug "down" None (demoLogger FATAL [] [])
                     (demoSys None)))) = [].
Proof.
  destruct (X10_fatal_always_passes_and_debug_rarely "down" (Some boom) None
              (demoLogger FATAL [] []) (demoSys None))
    as (Hfatal & _ & Hdebug).
  destruct (X10_fatal_always_passes_and_debug_rarely "down" (Some boom) None
              demoHttpLogger (demoSys None))
    as (_ & Hall & _).
  split; [exact Hfatal|split].
  - apply (Hall demoSkip); reflexivity.
  - apply Hdebug; simpl; discriminate.
Defined.

(** ** Stage chain: stalls, extension, safety *)

Lemma X11_witness :
  snd (call_log demoFail demoStallLogger (demoSys None)) = Hangs /\
  plugin_calls (events_since (demoSys None)
                  (fst (invoke demoFail demoStallLogger (demoSys None))))
    = [0; 1] /\
  send_calls (events_since (demoSys None)
                (fst (invoke demoFail demoStallLogger (demoSys None)))) = [] /\
  snd (invoke demoFail demoStallLogger (demoSys None)) = Normal Undefined /\
  unhandled (fst (invoke demoFail demoStallLogger (demoSys None))) = [].
Proof.
  eapply (X11_a_hung_stage_stalls_the_call
            demoFail demoStallLogger (demoSys None)
            [enrich demoCtx] neverSettles [faulty boom]).
  - split; [simpl; lia|split; reflexivity].
  - reflexivity.
Defined.

Lemma X12_witness :
  invoke demoFail (Logger.addPlugin (faulty boom) demoBlockedLogger)
    (demoSys None) =
  invoke demoFail demoBlockedLogger (demoSys None).
Proof.
  destruct (X12_addPlugin_appends_to_the_chain (faulty boom)
              demoBlockedLogger (demoSys None))
    as (_ & _ & _ & _ & _ & Hsame).
  apply Hsame.
  intros e1; simpl; discriminate.
Defined.

Lemma X13_witness :
  (forall err,
      snd (call_log demoWarn demoMixedLogger (demoSys None)) <> Rejects err) /\
  unhandled (fst (invoke demoWarn demoMixedLogger (demoSys None))) = [].
Proof.
  apply (X13_log_rejects_only_through_stages_or_throwing_sends
           demoWarn demoMixedLogger (demoSys None)).
  - intros p [<-|[]] e w err; simpl; discriminate.
  - intros t [<-|[<-|[<-|[<-|[]]]]] e w; eexists; reflexivity.
Defined.

(** ** Console backend, through the logger *)


Lemma X15_witness :
  exists m : ConsoleMethod,
    ConsoleTransport.resolveConsoleMethod (level (demoEntry WARN "z"))
      = Some m /\
    m = console_warn /\
    ConsoleTransport.send (H := demoHost) (mkConsoleTransportOptions None)
      (demoEntry WARN "z") 42 =
      (42, [mkConsoleCall m "[1970-01-01T00:00:00.000Z] [WARN] z" None],
       Normal (Fulfills tt)) /\
    (forall (f : LogEntry -> @Ext demoHost (Completion string))
            w1 out line,
        f (demoEntry WARN "z") 42 = (w1, out, Normal line) ->
        ConsoleTransport.send (mkConsoleTransportOptions (Some f))
          (demoEntry WARN "z") 42 =
          (w1, out ++ [mkConsoleCall m line None], Normal (Fulfills tt))).
Proof.
  destruct (X15_console_send_prints_one_line_by_level (H := demoHost)
              (demoEntry WARN "z") 42) as (m & Hm & Hlevel & Hline & Hf).
  - simpl; discriminate.
  - exists m; split; [exact Hm|split; [exact Hlevel|split; [|exact Hf]]].
    exact (Hline (ex_intro _ 42%nat eq_refl)).
Defined.

Lemma X16_witness :
  ConsoleTransport.send (H := demoHost)
    (mkConsoleTransportOptions (Some demoBadFormatter))
    (demoEntry INFO "i") 42 =
  (42, [],
   Normal (Rejects (TransportError "ConsoleTransport failed to send entry"
                      "console" (demoEntry INFO "i") boom))).
Proof.
  destruct (X16_console_send_never_throws (H := demoHost)
              (mkConsoleTransportOptions None) (demoEntry INFO "i") 42)
    as [_ Hwrap].
  apply (Hwrap demoBadFormatter 42 [] boom); reflexivity.
Defined.

Lemma X17_witness :
  console_since (demoSys None)
    (fst (invoke (CallError "y" (Some boom) None) demoConsoleLogger
            (demoSys None))) =
    [mkConsoleCall console_error
       (ConsoleTransport.defaultFormatter (H := demoHost)
          (mkLogEntry ERROR "y" 42%Z (Some boom) None)) None] /\
  send_calls (events_since (demoSys None)
                (fst (invoke (CallError "y" (Some boom) None)
                        demoConsoleLogger (demoSys None)))) =
    [(0, "console", mkLogEntry ERROR "y" 42%Z (Some boom) None)] /\
  snd (call_log (CallError "y" (Some boom) None) demoConsoleLogger
         (demoSys None)) = Fulfills tt /\
  unhandled (fst (invoke (CallError "y" (Some boom) None) demoConsoleLogger
                    (demoSys None))) = [].
Proof.
  apply (X17_console_logger_prints_calls_below_fatal
           (CallError "y" (Some boom) None) demoConsoleLogger (demoSys None)).
  - reflexivity.
  - reflexivity.
  - simpl; lia.
  - simpl; discriminate.
Defined.

Lemma X18_witness :
  console_since (demoSys None)
    (fst (Logger.fatal "y" (Some boom) None demoConsoleLogger (demoSys None)))
    = [mkConsoleCall console_error
         ("[Logger] Transport " ++ dquote ++ "console" ++ dquote ++ " failed:")
         (Some
            (TransportError "ConsoleTransport failed to send entry" "console"
               demoFatalEntry
               (TypeError "consoleMethod is not a function")))] /\
  snd (Logger.log FATAL "y" (Some boom) None demoConsoleLogger (demoSys None))
    = Fulfills tt /\
  unhandled (fst (Logger.fatal "y" (Some boom) None demoConsoleLogger
                    (demoSys None))) = [].
Proof.
  apply (X18_console_logger_loses_fatal_messages "y" (Some boom) None
           demoConsoleLogger (demoSys None)); reflexivity.
Defined.

(** ** Shared arrays *)

Lemma X2_witness :
  Shared.view (snd (Shared.removeTransport "file" demoSharedLogger demoHeap))
    (fst (Shared.removeTransport "file" demoSharedLogger demoHeap)) =
    Shared.view demoSharedLogger demoHeap /\
  Shared.transportsRef
    (snd (Shared.removeTransport "file" demoSharedLogger demoHeap)) <> 0 /\
  Shared.transportsRef
    (snd (Shared.removeTransport "file" demoSharedLogger demoHeap)) = 1 /\
  Shared.read
    (Shared.tarrays
       (fst (Shared.removeTransport "file" demoSharedLogger demoHeap))) 0 =
    [working "http"].
Proof.
  apply (X2_removeTransport_of_absent_name_keeps_the_contents
           "file" demoSharedLogger demoHeap).
  - split; simpl; lia.
  - intros t [<-|[]]; simpl; discriminate.
Defined.

Lemma X3_witness :
  exists h' : Shared.Heap,
    Shared.addTransport (working "file") demoSharedLogger demoHeap
      = Normal h' /\
    In (working "file")
       (transports (config (Shared.view demoSharedLogger h'))) /\
    Shared.view
      (snd (Shared.removeTransport "file" demoSharedLogger h'))
      (fst (Shared.removeTransport "file" demoSharedLogger h')) =
      Shared.view demoSharedLogger demoHeap /\
    Shared.transportsRef
      (snd (Shared.removeTransport "file" demoSharedLogger h')) <> 0 /\
    Shared.read
      (Shared.tarrays
         (fst (Shared.removeTransport "file" demoSharedLogger h'))) 0 =
      [working "http"; working "file"].
Proof.
  apply (X3_addTransport_then_removeTransport_restores_the_contents
           (working "file") demoSharedLogger demoHeap).
  - split; simpl; lia.
  - intros t [<-|[]]; simpl; discriminate.
Defined.

Lemma X20_witness :
  (forall p,
      Shared.view demoSharedLogger
        (Shared.addPlugin p demoSharedLogger demoHeap) =
        Logger.addPlugin p (Shared.view demoSharedLogger demoHeap) /\
      Shared.logger_ok demoSharedLogger
        (Shared.addPlugin p demoSharedLogger demoHeap)) /\
  (forall t,
      match Shared.addTransport t demoSharedLogger demoHeap with
      | Normal h' =>
          Logger.addTransport t (Shared.view demoSharedLogger demoHeap) =
            Normal (Shared.view demoSharedLogger h') /\
          Shared.logger_ok demoSharedLogger h'
      | Throw e =>
          Logger.addTransport t (Shared.view demoSharedLogger demoHeap)
            = Throw e
      end) /\
  (forall n,
      Shared.view (snd (Shared.removeTransport n demoSharedLogger demoHeap))
        (fst (Shared.removeTransport n demoSharedLogger demoHeap)) =
        Logger.removeTransport n (Shared.view demoSharedLogger demoHeap) /\
      Shared.logger_ok
        (snd (Shared.removeTransport n demoSharedLogger demoHeap))
        (fst (Shared.removeTransport n demoSharedLogger demoHeap))).
Proof.
  apply (X20_instance_methods_commute_with_view demoSharedLogger demoHeap).
  split; simpl; lia.
Defined.

Lemma X21_witness :
  Shared.view (snd (Shared.new 0 demoSharedConfig demoHeap))
    (fst (Shared.new 0 demoSharedConfig demoHeap)) =
    Logger.new 0 (Shared.view_config demoSharedConfig demoHeap) /\
  Shared.logger_ok (snd (Shared.new 0 demoSharedConfig demoHeap))
    (fst (Shared.new 0 demoSharedConfig demoHeap)) /\
  (forall r, Shared.transportsOpt demoSharedConfig = Some r ->
             Shared.transportsRef (snd (Shared.new 0 demoSharedConfig demoHeap))
               = r /\
             Shared.tarrays (fst (Shared.new 0 demoSharedConfig demoHeap))
               = Shared.tarrays demoHeap) /\
  (forall r, Shared.pluginsOpt demoSharedConfig = Some r ->
             Shared.pluginsRef (snd (Shared.new 0 demoSharedConfig demoHeap))
               = r /\
             Shared.parrays (fst (Shared.new 0 demoSharedConfig demoHeap))
               = Shared.parrays demoHeap) /\
  (Shared.transportsOpt demoSharedConfig = None ->
   Shared.transportsRef (snd (Shared.new 0 demoSharedConfig demoHeap)) =
     length (Shared.tarrays demoHeap)) /\
  (Shared.pluginsOpt demoSharedConfig = None ->
   Shared.pluginsRef (snd (Shared.new 0 demoSharedConfig demoHeap)) =
     length (Shared.parrays demoHeap)).
Proof.
  apply (X21_constructor_keeps_the_callers_arrays
           0 demoSharedConfig demoHeap).
  split; simpl; lia.
Defined.

Lemma X22_witness :
  exists h' : Shared.Heap,
    Shared.addTransport (working "file")
      (snd (Shared.new 0 demoSharedConfig demoHeap))
      (fst (Shared.new 0 demoSharedConfig demoHeap)) = Normal h' /\
    Shared.read (Shared.tarrays h') 0 =
      Shared.read (Shared.tarrays demoHeap) 0 ++ [working "file"] /\
    (forall o',
        transports
          (config (Shared.view (snd (Shared.new o' demoSharedConfig h'))
                     (fst (Shared.new o' demoSharedConfig h')))) =
        Shared.read (Shared.tarrays demoHeap) 0 ++ [working "file"]).
Proof.
  apply (X22_addTransport_pushes_onto_the_callers_array
           0 demoSharedConfig demoHeap 0 (working "file")).
  - reflexivity.
  - split; simpl; lia.
  - intros t [<-|[]]; simpl; discriminate.
Defined.

Lemma X23_witness :
  Shared.read
    (Shared.parrays
       (Shared.addPlugin blockAll
          (snd (Shared.new 0 demoSharedConfig demoHeap))
          (fst (Shared.new 0 demoSharedConfig demoHeap)))) 0 =
    Shared.read (Shared.parrays demoHeap) 0 ++ [blockAll] /\
  (forall n t,
      Shared.pluginsRef
        (snd (Shared.removeTransport n
                (snd (Shared.new 0 demoSharedConfig demoHeap))
                (fst (Shared.new 0 demoSharedConfig demoHeap)))) = 0 /\
      match Shared.addTransport t
              (snd (Shared.new 0 demoSharedConfig demoHeap))
              (fst (Shared.new 0 demoSharedConfig demoHeap)) with
      | Normal h' => Shared.parrays h' = Shared.parrays demoHeap
      | Throw _ => True
      end).
Proof.
  apply (X23_addPlugin_pushes_onto_the_callers_array
           0 demoSharedConfig demoHeap 0 blockAll).
  - reflexivity.
  - split; simpl; lia.
Defined.

Lemma X24_witness :
  Shared.read
    (Shared.tarrays
       (fst (Shared.removeTransport "http" demoSharedLogger demoHeap))) 0 =
    [working "http"] /\
  Shared.read
    (Shared.tarrays
       (fst (Shared.removeTransport "http" demoSharedLogger demoHeap))) 1 =
    [] /\
  (forall h'',
      Shared.addTransport (working "file")
        (snd (Shared.removeTransport "http" demoSharedLogger demoHeap))
        (fst (Shared.removeTransport "http" demoSharedLogger demoHeap))
        = Normal h'' ->
      Shared.read (Shared.tarrays h'') 0 = [working "http"]).
Proof.
  destruct (X24_removeTransport_detaches_from_the_callers_array
              "http" demoSharedLogger demoHeap)
    as (Hold & _ & _ & Hlater).
  split; [apply (Hold 0); simpl; lia|].
  split; [reflexivity|].
  intros h'' Hadd.
  apply (Hlater (working "file") h'' Hadd 0); simpl; lia.
Defined.

End Scenarios.
